(** * orthoseg: the versioned training-dataset builder

    A shallow embedding of [orthoseg/prepare_traindatasets.py]
    ([prepare_traindatasets], [convert_traindata_v1tov2], [_create_mask])
    and the properties of the versioned dataset builder.

    Conventions of the embedding:
    - a path is the list of its components, so [os.path.join d n] is
      [d ++ [n]] and [os.path.basename] is the last component;
    - the file system is a tree of directories and files; every [os],
      [shutil] and [glob] call of the source is an action on it that may
      raise;
    - a Python float is a binary64 float ([spec_float] at precision 53):
      the arithmetic of the module rounds as Python's does;
    - [glob] reads the name of the training directory as a pattern, as
      the source has it;
    - the libraries the module calls (shapely, rasterio, owslib and the
      project's own [geofile_util] and [ows_util], none of which is part of
      the sources) are collected in the record [externals];
    - a ghost trace records the calls made to the collaborators and the
      promotion of the staging directory. *)

From Stdlib Require Import ZArith Lia SpecFloat.
From Stdlib Require Import Ascii String DecimalString DecimalN DecimalFacts.
From stdpp Require Import gmap strings list fin_maps sorting.

Set Warnings "-register-all,-clear-no-such-hyp".
Local Open Scope string_scope.
Local Open Scope list_scope.

(* ================================================================== *)
(** ** Exceptions and results *)
(* ================================================================== *)

(** The exceptions the module can raise.  [Exception msg cause] is
    [raise Exception(msg) from cause]; the errors of the collaborators
    surface as [ExternalError]. *)
Inductive exn :=
| Exception (message : string) (cause : option exn)
| KeyError (key : string)
| IndexError
| ValueError (message : string)
| ZeroDivisionError
| OSError (message : string)
| ExternalError (message : string).

Inductive result (A : Type) :=
| Ok (a : A)
| Raise (e : exn).
Arguments Ok {A} a.
Arguments Raise {A} e.

(** What a collaborator answers: a value or an error message. *)
Definition of_external {A} (r : string + A) : result A :=
  match r with
  | inl msg => Raise (ExternalError msg)
  | inr a => Ok a
  end.

(* ================================================================== *)
(** ** Strings: the [str] methods the module uses *)
(* ================================================================== *)

Definition is_digit (c : ascii) : bool :=
  (48 <=? nat_of_ascii c)%nat && (nat_of_ascii c <=? 57)%nat.

(** [str.isspace] on the ASCII range. *)
Definition is_space (c : ascii) : bool :=
  let n := nat_of_ascii c in
  ((9 <=? n)%nat && (n <=? 13)%nat) || ((28 <=? n)%nat && (n <=? 32)%nat).

(** [s.endswith(suffix)]. *)
Definition endswith (s suffix : string) : bool :=
  bool_decide (list_ascii_of_string suffix `suffix_of` list_ascii_of_string s).

(** The glob pattern [[0-9]*] on one path component. *)
Definition glob_digit_star (name : string) : bool :=
  match name with
  | String c _ => is_digit c
  | EmptyString => false
  end.

(** The glob pattern [train_[0-9]*] on one path component. *)
Definition glob_train_digit_star (name : string) : bool :=
  String.prefix "train_" name &&
  match String.get 6 name with
  | Some c => is_digit c
  | None => false
  end.

(** [s.split(sep)] for a one-character separator. *)
Fixpoint split_on (sep : ascii) (s : string) : list string :=
  match s with
  | EmptyString => [EmptyString]
  | String c s' =>
      if Ascii.eqb c sep then EmptyString :: split_on sep s'
      else match split_on sep s' with
           | piece :: pieces => String c piece :: pieces
           | [] => [String c EmptyString]
           end
  end.

(** [s.strip()] on ASCII white space, through the characters of [s]. *)
Fixpoint lstrip_chars (l : list ascii) : list ascii :=
  match l with
  | c :: l' => if is_space c then lstrip_chars l' else l
  | [] => []
  end.

Definition strip (s : string) : string :=
  string_of_list_ascii
    (rev (lstrip_chars (rev (lstrip_chars (list_ascii_of_string s))))).

(** The digits of an integer literal: single underscores are allowed
    between digits (PEP 515).  [prev_digit] tells whether the previous
    character was a digit. *)
Fixpoint drop_underscores (prev_digit : bool) (s : string) : option string :=
  match s with
  | EmptyString => if prev_digit then Some EmptyString else None
  | String c s' =>
      if is_digit c then String c <$> drop_underscores true s'
      else if Ascii.eqb c "_" && prev_digit then drop_underscores false s'
      else None
  end.

(** The optional sign of an integer literal. *)
Definition split_sign (s : string) : bool * string :=
  match s with
  | String "+" r => (false, r)
  | String "-" r => (true, r)
  | _ => (false, s)
  end.

(** [int(s)] in base ten, on ASCII strings: surrounding white space, an
    optional sign, digits with single underscores between them.  [None] is
    [ValueError]. *)
Definition py_int (s : string) : option Z :=
  let '(negative, body) := split_sign (strip s) in
  digits ← drop_underscores false body;
  d ← NilEmpty.uint_of_string digits;
  let n := Z.of_N (N.of_uint d) in
  Some (if negative : bool then (- n)%Z else n).

(** [str(n)] for a natural number. *)
Definition str_of_N (n : N) : string :=
  NilZero.string_of_uint (N.to_uint n).

(** The format [{v:02d}]: at least two characters, padded with zeros. *)
Definition format_02d (v : Z) : string :=
  if (v <? 0)%Z then "-" +:+ str_of_N (Z.to_N (- v))
  else if (v <? 10)%Z then "0" +:+ str_of_N (Z.to_N v)
  else str_of_N (Z.to_N v).

(** [sorted(names, reverse=True)[0]]: the greatest string in code-point
    order, [None] for the empty list. *)
Definition str_max (a b : string) : string :=
  if String.leb a b then b else a.

Definition greatest (names : list string) : option string :=
  match names with
  | [] => None
  | n :: ns => Some (foldr str_max n ns)
  end.

(** [s.lower()] on the ASCII range. *)
Definition ascii_lower (c : ascii) : ascii :=
  let n := nat_of_ascii c in
  if (65 <=? n)%nat && (n <=? 90)%nat then ascii_of_nat (n + 32) else c.

Fixpoint lower (s : string) : string :=
  match s with
  | EmptyString => EmptyString
  | String c s' => String (ascii_lower c) (lower s')
  end.

(** [os.path.splitext(name)[1]]: the extension starts at the last dot,
    leading dots of the name apart.  [seen] tells whether a character other
    than a dot was met before. *)
Fixpoint splitext_ext (seen : bool) (s : string) : string :=
  match s with
  | EmptyString => EmptyString
  | String c s' =>
      let rest := splitext_ext (seen || negb (Ascii.eqb c ".")) s' in
      if Ascii.eqb c "." && seen then
        match rest with
        | EmptyString => s
        | _ => rest
        end
      else rest
  end.

(* ================================================================== *)
(** ** Numbers and boxes *)
(* ================================================================== *)

(** A Python float: an IEEE 754 binary64 number. *)
Definition float : Type := spec_float.

Declare Scope pyfloat_scope.
Delimit Scope pyfloat_scope with pyfloat.
Bind Scope pyfloat_scope with float.
Notation "0" := (S754_zero false) : pyfloat_scope.

(** [float(z)] for an int: the nearest float, ties to even.  (Python
    raises [OverflowError] for an int beyond the range of a float, where
    this gives an infinity: the statements on it keep to ints that a float
    holds exactly.) *)
Definition float_of_int (z : Z) : float := binary_normalize 53 1024 z 0 false.

(** [a + b], [a - b], [a * b] and [math.fabs(a)] on floats, and the
    comparisons [a <= b] and [a < b]. *)
Definition fadd (a b : float) : float := SFadd 53 1024 a b.
Definition fsub (a b : float) : float := SFsub 53 1024 a b.
Definition fmul (a b : float) : float := SFmul 53 1024 a b.
Definition fdiv (a b : float) : float := SFdiv 53 1024 a b.
Definition fabs (a : float) : float := SFabs a.
Definition fleb (a b : float) : bool := SFleb a b.
Definition fltb (a b : float) : bool := SFltb a b.

(** The sign bit of a float. *)
Definition sign_bit (x : float) : bool :=
  match x with
  | S754_zero s | S754_infinity s | S754_finite s _ _ => s
  | S754_nan => false
  end.

(** C's [fmod(x, y)]: the remainder of the division truncated towards
    zero; it has the sign of [x] and is computed without rounding. *)
Definition fmod (x y : float) : float :=
  match x, y with
  | S754_nan, _ | _, S754_nan => S754_nan
  | S754_infinity _, _ => S754_nan
  | _, S754_zero _ => S754_nan
  | _, S754_infinity _ => x
  | S754_zero _, _ => x
  | S754_finite sx mx ex, S754_finite _ my ey =>
      let e := Z.min ex ey in
      let r := ((Z.pos mx * 2 ^ (ex - e)) mod (Z.pos my * 2 ^ (ey - e)))%Z in
      binary_normalize 53 1024 (if sx then (- r)%Z else r) e sx
  end.

(** [a % b] on floats ([float_rem]): a zero divisor raises; otherwise the
    remainder of [fmod], with [b] added when its sign is not that of [b],
    and a zero remainder takes the sign of [b]. *)
Definition pymod (a b : float) : result float :=
  match b with
  | S754_zero _ => Raise ZeroDivisionError
  | _ =>
      let r := fmod a b in
      match r with
      | S754_zero _ => Ok (S754_zero (sign_bit b))
      | _ =>
          if xorb (fltb b 0) (fltb r 0) then Ok (fadd r b) else Ok r
      end
  end.

(** [shapely.geometry.box(xmin, ymin, xmax, ymax)]. *)
Record Box := mk_box { bxmin : float; bymin : float; bxmax : float; bymax : float }.

(** [a.intersects(b)] for two boxes: closed rectangles that share at least
    one point. *)
Definition box_intersects (a b : Box) : bool :=
  fleb (bxmin a) (bxmax b) && fleb (bxmin b) (bxmax a) &&
  fleb (bymin a) (bymax b) && fleb (bymin b) (bymax a).

(** [created_images_gdf.intersects(img_bbox).any()]. *)
Definition intersects_any (created : list Box) (img_bbox : Box) : bool :=
  existsb (fun b => box_intersects b img_bbox) created.

(** The candidate tile of a label geometry, from its bounds
    (lines 187-193 of [prepare_traindatasets]). *)
Definition tile_box (geom_bounds : float * float * float * float)
    (image_pixel_x_size image_pixel_y_size image_srs_width image_srs_height : float)
    : result Box :=
  let '(b0, b1, _, _) := geom_bounds in
  match pymod b0 image_pixel_x_size with
  | Raise e => Raise e
  | Ok mx =>
      let xmin := fsub b0 mx in
      match pymod b1 image_pixel_y_size with
      | Raise e => Raise e
      | Ok my =>
          let ymin := fsub b1 my in
          let xmax := fadd xmin image_srs_width in
          let ymax := fadd ymin image_srs_height in
          Ok (mk_box xmin ymin xmax ymax)
      end
  end.

(* ================================================================== *)
(** ** Rasters *)
(* ================================================================== *)

(** An affine transform, as rasterio's [Affine(a, b, c, d, e, f)]. *)
Record affine := mk_affine
  { aff_a : float; aff_b : float; aff_c : float;
    aff_d : float; aff_e : float; aff_f : float }.

Definition affine_identity : affine :=
  mk_affine (float_of_int 1) 0 0 0 (float_of_int 1) 0.

(** The values of a rasterio profile. *)
Inductive pval :=
| PNone
| PInt (z : Z)
| PStr (s : string)
| PBool (b : bool)
| PAffine (t : affine)
| PCrs (c : string).

(** A raster file: its profile (driver, dtype, nodata, width, height,
    count, crs, transform, ...) and its bands, each a list of rows.  The
    attributes of an opened dataset are those of its profile. *)
Record raster := mk_raster
  { r_profile : gmap string pval; r_bands : list (list (list Z)) }.

#[global] Instance float_eq_dec : EqDecision float.
Proof. unfold float. solve_decision. Defined.
#[global] Instance affine_eq_dec : EqDecision affine.
Proof. solve_decision. Defined.
#[global] Instance pval_eq_dec : EqDecision pval.
Proof. solve_decision. Defined.
#[global] Instance raster_eq_dec : EqDecision raster.
Proof. solve_decision. Defined.

Definition ds_transform (r : raster) : affine :=
  match r_profile r !! "transform" with
  | Some (PAffine t) => t
  | _ => affine_identity
  end.

(* ================================================================== *)
(** ** The file system *)
(* ================================================================== *)

Inductive content :=
| Blob (bytes : list Byte.byte)
| Raster (r : raster).

#[global] Instance byte_eq_dec : EqDecision Byte.byte := Byte.byte_eq_dec.
#[global] Instance content_eq_dec : EqDecision content.
Proof. solve_decision. Defined.

Inductive node :=
| File (c : content)
| Dir (entries : gmap string node).

Abbreviation path := (list string).

(** [os.sep.join(p)], for messages. *)
Fixpoint path_str (p : path) : string :=
  match p with
  | [] => ""
  | [x] => x
  | x :: p' => x +:+ "/" +:+ path_str p'
  end.

(** [os.path.basename] and [os.path.dirname]. *)
Definition basename (p : path) : string := List.last p "".
Definition dirname (p : path) : path := removelast p.

(** The node at a path, from a node. *)
Fixpoint lookup_path (p : path) (n : option node) : option node :=
  match p with
  | [] => n
  | x :: p' =>
      match n with
      | Some (Dir es) => lookup_path p' (es !! x)
      | _ => None
      end
  end.

(** Replace ([Some]) or remove ([None]) the node at a path whose parent
    is a directory; the outer [None] is failure. *)
Fixpoint set_path (p : path) (o : option node) (n : option node)
    : option (option node) :=
  match p with
  | [] => Some o
  | x :: p' =>
      match n with
      | Some (Dir es) =>
          match set_path p' o (es !! x) with
          | Some (Some c) => Some (Some (Dir (<[x:=c]> es)))
          | Some None => Some (Some (Dir (delete x es)))
          | None => None
          end
      | _ => None
      end
  end.

(* ================================================================== *)
(** ** Tables, layers and requests *)
(* ================================================================== *)

(** An attribute value of a table row. *)
Inductive value :=
| VNone
| VStr (s : string)
| VInt (z : Z).

(** A row of a GeoDataFrame: its geometry and its other attributes; an
    attribute that is absent reads as [VNone]. *)
Record row (G : Type) := mk_row
  { geometry : G; attrs : gmap string value }.
Arguments mk_row {G} _ _.
Arguments geometry {G} _.
Arguments attrs {G} _.

(** A GeoDataFrame: its [crs] dictionary, its columns (the geometry
    column apart) and its rows. *)
Record gdf (G : Type) := mk_gdf
  { crs : gmap string string; columns : gset string; rows : list (row G) }.
Arguments mk_gdf {G} _ _ _.
Arguments crs {G} _.
Arguments columns {G} _.
Arguments rows {G} _.

(** One entry of [image_layers]. *)
Record layer_config := mk_layer
  { wms_server_url : string;
    wms_version : string;
    wms_layernames : list string;
    wms_layerstyles : list string;
    image_pixels_ignore_border : Z }.

(** A connected [owslib.wms.WebMapService]. *)
Record wms := mk_wms { wms_url : string; wms_ver : string }.

(** The arguments of [ows_util.getmap_to_file]. *)
Record getmap_request := mk_request
  { gm_wms : wms;
    gm_layers : list string;
    gm_styles : list string;
    gm_output_dir : path;
    gm_srs : string;
    gm_bbox : Box;
    gm_size : Z * Z;
    gm_image_format : string;
    gm_image_pixels_ignore_border : Z;
    gm_transparent : bool }.

Definition FORMAT_JPEG : string := "image/jpeg".

(** The libraries behind the module.  [G] is the type of shapely
    geometries. *)
Record externals (G : Type) := mk_externals
  { (** [geom.bounds]: (minx, miny, maxx, maxy) *)
    bounds : G -> float * float * float * float;
    (** [shapely.geometry.box] as a geometry *)
    box_geom : Box -> G;
    (** whether [rasterio.features.rasterize] burns the pixel at
        (row, column) of the grid of a transform for a geometry *)
    pixel_covered : G -> affine -> nat -> nat -> bool;
    (** [geofile_util.read_file], on the bytes of the file *)
    decode_gdf : list Byte.byte -> string + gdf G;
    (** [geofile_util.to_file], to the bytes of the file *)
    encode_gdf : gdf G -> string + list Byte.byte;
    (** [owslib.wms.WebMapService(url, version)]: an error or nothing *)
    wms_connect : string -> string -> option string;
    (** [ows_util.getmap_to_file]: an error, [None] when the file was
        there already, or the name and the content of the file it wrote in
        the output directory; it may look at the file system *)
    getmap : node -> getmap_request -> string + option (string * raster);
    (** [fnmatch.fnmatch(name, pattern)], for the components of a
        directory that [glob] reads as patterns *)
    fnmatch : string -> string -> bool;
    (** [rasterio.open(path, 'w', **profile)] and [write(array, 1)]: the
        dataset that is stored for a profile and an array, through the
        shape, the dtype and the driver of the profile, or an error *)
    dataset_write : gmap string pval -> list (list Z) -> string + raster }.
Arguments bounds {G} _ _.
Arguments box_geom {G} _ _.
Arguments pixel_covered {G} _ _ _ _ _.
Arguments decode_gdf {G} _ _.
Arguments encode_gdf {G} _ _.
Arguments wms_connect {G} _ _ _.
Arguments getmap {G} _ _ _.
Arguments fnmatch {G} _ _ _.
Arguments dataset_write {G} _ _ _.

(* ================================================================== *)
(** ** The world: file system and ghost trace *)
(* ================================================================== *)

(** What the trace records. *)
Inductive event :=
| EvAccept (traindata_type : string) (img_bbox : Box)
| EvFetch (traindata_type : string) (request : getmap_request)
| EvMask (traindata_type : string) (image_filepath mask_filepath : path)
| EvSplitDone (traindata_type : string)
| EvLoopError (traindata_type : string) (ex : exn)
| EvRename (src dst : path).

Record world := mk_world { fs : node; trace : list event }.

(** An action of the program: it runs on a world and returns or raises. *)
Definition IO (A : Type) : Type := world -> world * result A.

Definition ret {A} (a : A) : IO A := fun w => (w, Ok a).
Definition raise {A} (e : exn) : IO A := fun w => (w, Raise e).

Definition bind {A B} (m : IO A) (k : A -> IO B) : IO B :=
  fun w =>
    match m w with
    | (w', Ok a) => k a w'
    | (w', Raise e) => (w', Raise e)
    end.

Notation "'do' x <- m ; k" := (bind m (fun x => k))
  (at level 10, x pattern, m at level 100, k at level 200,
   format "'[v' 'do'  x  <-  m ; '/' k ']'").
Notation "m ;; k" := (bind m (fun _ => k))
  (at level 100, k at level 200, right associativity).

Definition lift {A} (r : result A) : IO A := fun w => (w, r).

(** [try: m except Exception as ex: handler ex]. *)
Definition try_except {A} (m : IO A) (handler : exn -> IO A) : IO A :=
  fun w =>
    match m w with
    | (w', Raise e) => handler e w'
    | r => r
    end.

Definition log (e : event) : IO unit :=
  fun w => (mk_world (fs w) (trace w ++ [e]), Ok tt).

Definition get_fs : IO node := fun w => (w, Ok (fs w)).

(** Run a change of the file system that may fail. *)
Definition update_fs (f : node -> result node) : IO unit :=
  fun w =>
    match f (fs w) with
    | Ok fs' => (mk_world fs' (trace w), Ok tt)
    | Raise e => (w, Raise e)
    end.

Definition stat (p : path) (n : node) : option node := lookup_path p (Some n).

Definition is_dir (p : path) (n : node) : bool :=
  match stat p n with
  | Some (Dir _) => true
  | _ => false
  end.

(** [os.path.exists(p)]. *)
Definition path_exists (p : path) : IO bool :=
  fun w => (w, Ok (bool_decide (is_Some (stat p (fs w))))).

Definition put (p : path) (o : option node) (n : node) : result node :=
  match set_path p o (Some n) with
  | Some (Some n') => Ok n'
  | _ => Raise (OSError ("cannot change " +:+ path_str p))
  end.

(** [os.mkdir(p)]. *)
Definition mkdir (p : path) : IO unit :=
  update_fs (fun n =>
    match stat p n with
    | Some _ => Raise (OSError ("FileExistsError: " +:+ path_str p))
    | None => put p (Some (Dir ∅)) n
    end).

(** [os.makedirs(p)]: the missing parents are made first, then [p]
    itself, which must not exist. *)
Fixpoint makedirs_from (done todo : path) : IO unit :=
  match todo with
  | [] => mkdir done
  | x :: todo' =>
      (do present <- path_exists done;
       if present : bool then ret tt else mkdir done);;
      makedirs_from (done ++ [x]) todo'
  end.

Definition makedirs (p : path) : IO unit := makedirs_from [] p.

(** [shutil.rmtree(p)]. *)
Definition rmtree (p : path) : IO unit :=
  update_fs (fun n =>
    match stat p n with
    | Some (Dir _) => put p None n
    | Some (File _) => Raise (OSError ("NotADirectoryError: " +:+ path_str p))
    | None => Raise (OSError ("FileNotFoundError: " +:+ path_str p))
    end).

(** Whether a node is a directory with no entry. *)
Definition is_empty_dir (n : node) : bool :=
  match n with
  | Dir es => bool_decide (es = ∅)
  | File _ => false
  end.

(** [os.rename(src, dst)] (POSIX): an existing destination is replaced
    when it is a file and so is the source, or when it is an empty
    directory and the source is a directory; otherwise it raises. *)
Definition rename (src dst : path) : IO unit :=
  update_fs (fun n =>
    match stat src n with
    | None => Raise (OSError ("FileNotFoundError: " +:+ path_str src))
    | Some moved =>
        let allowed :=
          match stat dst n, moved with
          | None, _ => true
          | Some (File _), File _ => true
          | Some d, Dir _ => is_empty_dir d
          | Some _, File _ => false
          end in
        if allowed then
          match put src None n with
          | Ok n1 => put dst (Some moved) n1
          | Raise e => Raise e
          end
        else Raise (OSError ("cannot rename to " +:+ path_str dst))
    end).

(** Read the content of a file. *)
Definition read_content (p : path) : IO content :=
  fun w =>
    match stat p (fs w) with
    | Some (File c) => (w, Ok c)
    | Some (Dir _) => (w, Raise (OSError ("IsADirectoryError: " +:+ path_str p)))
    | None => (w, Raise (OSError ("FileNotFoundError: " +:+ path_str p)))
    end.

(** Create or overwrite a file. *)
Definition write_content (p : path) (c : content) : IO unit :=
  update_fs (fun n =>
    match stat p n with
    | Some (Dir _) => Raise (OSError ("IsADirectoryError: " +:+ path_str p))
    | _ => put p (Some (File c)) n
    end).

(** [shutil.copyfile(src, dst)]. *)
Definition copyfile (src dst : path) : IO unit :=
  do c <- read_content src; write_content dst c.

(** The names of the directories in the directory [dir] that match a
    pattern ([glob._glob1] with [dironly]); none when [dir] is no
    directory. *)
Definition list_dirs (dir : path) (pattern : string -> bool) (n : node)
    : list string :=
  match stat dir n with
  | Some (Dir es) =>
      omap (fun entry : string * node =>
              match entry.2 with
              | Dir _ => if pattern entry.1 then Some entry.1 else None
              | File _ => None
              end)
           (map_to_list es)
  | _ => []
  end.

(** [glob.has_magic]: the name has one of the characters [*], [?] and
    [[]. *)
Definition has_magic (s : string) : bool :=
  existsb (fun c => (c =? "*")%char || (c =? "?")%char || (c =? "[")%char)
    (list_ascii_of_string s).

(** [glob._ishidden]. *)
Definition is_hidden (name : string) : bool :=
  match name with
  | String "." _ => true
  | _ => false
  end.

(** A directory that has no magic character in its name. *)
Definition plain_dir (dir : path) : bool := forallb (fun c => negb (has_magic c)) dir.

Section Glob.
Context (fnmatch_name : string -> string -> bool).

(** The directories a component adds to the directories found so far
    ([glob._iglob] with [dironly]): a component with a magic character
    stands for the directories that match it, hidden ones only when it
    starts with a dot ([_glob1]); any other component stands for itself
    where it exists ([_glob0]). *)
Definition glob_step (n : node) (component : string) (dir : path) : list path :=
  if has_magic component then
    List.map (fun name => dir ++ [name])
      (list_dirs dir
         (fun name => fnmatch_name name component &&
                      (is_hidden component || negb (is_hidden name))) n)
  else if bool_decide (is_Some (stat (dir ++ [component]) n))
       then [dir ++ [component]] else [].

Fixpoint glob_components (n : node) (dirs : list path) (components : list string)
    : list path :=
  match components with
  | [] => dirs
  | component :: components' =>
      glob_components n (flat_map (glob_step n component) dirs) components'
  end.

(** The directories a directory stands for when [glob] reads its name
    as a pattern: the components before the first one with a magic
    character are taken as they are. *)
Fixpoint glob_pattern_dirs (n : node) (done dir : path) : list path :=
  match dir with
  | [] => [done]
  | component :: dir' =>
      if has_magic component then glob_components n [done] dir
      else glob_pattern_dirs n (done ++ [component]) dir'
  end.

(** [glob.glob(f"{dir}{os.sep}<pattern>{os.sep}")] followed by
    [rstrip(os.sep)]: the directories whose name matches the pattern, in
    the directories [dir] stands for. *)
Definition glob_dirs (dir : path) (pattern : string -> bool) : IO (list path) :=
  fun w =>
    (w, Ok (flat_map
              (fun d => List.map (fun name => d ++ [name])
                          (list_dirs d pattern (fs w)))
              (glob_pattern_dirs (fs w) [] dir))).
End Glob.

(** [sorted(paths, reverse=True)[0]]: the path whose string is the
    greatest. *)
Definition path_max (a b : path) : path :=
  if String.leb (path_str a) (path_str b) then b else a.

Definition greatest_path (paths : list path) : option path :=
  match paths with
  | [] => None
  | p :: ps => Some (foldr path_max p ps)
  end.

(* ================================================================== *)
(** ** Operations on tables (pandas) *)
(* ================================================================== *)

Section Tables.
Context {G : Type}.

(** [row[col]]. *)
Definition row_get (col : string) (r : row G) : value :=
  default VNone (attrs r !! col).

(** [df[df[col] == v]]. *)
Definition df_filter (col : string) (keep : value -> bool) (df : gdf G)
    : result (gdf G) :=
  if bool_decide (col ∈ columns df)
  then Ok (mk_gdf (crs df) (columns df)
             (List.filter (fun r => keep (row_get col r)) (rows df)))
  else Raise (KeyError col).

Definition value_eqb (v1 v2 : value) : bool :=
  match v1, v2 with
  | VNone, VNone => true
  | VStr s1, VStr s2 => String.eqb s1 s2
  | VInt z1, VInt z2 => (z1 =? z2)%Z
  | _, _ => false
  end.

(** [df[col] = v]. *)
Definition df_set_column (col : string) (v : value) (df : gdf G) : gdf G :=
  mk_gdf (crs df) ({[col]} ∪ columns df)
    (List.map (fun r => mk_row (geometry r) (<[col:=v]> (attrs r))) (rows df)).

(** [GeoDataFrame(pd.concat([df1, df2], ignore_index=True, sort=True),
    crs=c)]. *)
Definition df_concat (c : gmap string string) (df1 df2 : gdf G) : gdf G :=
  mk_gdf c (columns df1 ∪ columns df2) (rows df1 ++ rows df2).

(** [df.rename(columns={old: new})]; a column that is absent is left
    alone. *)
Definition df_rename (old new : string) (df : gdf G) : gdf G :=
  if bool_decide (old ∈ columns df)
  then mk_gdf (crs df) ({[new]} ∪ (columns df ∖ {[old]}))
         (List.map (fun r =>
            mk_row (geometry r)
              (match attrs r !! old with
               | Some v => <[new:=v]> (delete old (attrs r))
               | None => delete new (delete old (attrs r))
               end)) (rows df))
  else df.

(** [df.drop(columns=cols)]: every column must be there. *)
Fixpoint df_drop (cols : list string) (df : gdf G) : result (gdf G) :=
  match cols with
  | [] => Ok df
  | col :: cols' =>
      if bool_decide (col ∈ columns df)
      then df_drop cols'
             (mk_gdf (crs df) (columns df ∖ {[col]})
                (List.map (fun r => mk_row (geometry r) (delete col (attrs r)))
                   (rows df)))
      else Raise (KeyError col)
  end.
End Tables.

(* ================================================================== *)
(** ** The builder *)
(* ================================================================== *)

(** The parameters of [prepare_traindatasets]. *)
Record build_args := mk_args
  { labellocations_path : path;
    labeldata_path : path;
    label_names_to_burn : list string;
    image_layers : gmap string layer_config;
    default_image_layer : string;
    training_dir : path;
    image_pixel_x_size : float;
    image_pixel_y_size : float;
    image_pixel_width : Z;
    image_pixel_height : Z;
    max_samples : Z;
    burn_value : Z;
    output_filelist_csv : string;
    output_keep_nested_dirs : bool;
    force : bool }.

(** How the version is resolved: the most recent version is reused, or a
    new one is built. *)
Inductive resolution :=
| Reuse (output_dir_mostrecent : path) (dataversion_mostrecent : Z)
| Build (dataversion_new : Z).

(** The local state of the loop over the labels of one split. *)
Record split_state := mk_split_state
  { created_images : list Box; wms_servers : gmap string wms }.

Section Builder.
Context {G : Type} (E : externals G).

(** *** File helpers of [geofile_util] *)

(** Modelled from the spec: [geofile_util.cmp(pathA, pathB)], exact
    content equality of two files. *)
Definition geofile_cmp (p1 p2 : path) : IO bool :=
  do c1 <- read_content p1;
  do c2 <- read_content p2;
  ret (bool_decide (c1 = c2)).

(** Modelled from the spec: [geofile_util.copy(src, destdir)], the file
    is copied into the directory under its own name. *)
Definition geofile_copy (src destdir : path) : IO unit :=
  copyfile src (destdir ++ [basename src]).

(** [geofile_util.read_file(path)]. *)
Definition geofile_read_file (p : path) : IO (gdf G) :=
  do c <- read_content p;
  match c with
  | Blob bytes => lift (of_external (decode_gdf E bytes))
  | Raster _ => raise (ExternalError "not a vector file")
  end.

(** [geofile_util.to_file(df, path)]. *)
Definition geofile_to_file (df : gdf G) (p : path) : IO unit :=
  do bytes <- lift (of_external (encode_gdf E df));
  write_content p (Blob bytes).

(** *** The mask rasterizer *)

(** [rasterio.features.rasterize(shapes, fill, default_value, transform,
    out_shape)]: an array of [out_shape.1] rows and [out_shape.2]
    columns; with no geometry it raises [ValueError].  (Every geometry
    of the list is taken to be a valid one, and the values to fit the
    dtype of the mask, [uint8].) *)
Definition rasterize (shapes : list G) (fill default_value : Z)
    (transform : affine) (out_shape : nat * nat) : result (list (list Z)) :=
  match shapes with
  | [] => Raise (ValueError "No valid geometry objects found for rasterize")
  | _ =>
      Ok (List.map (fun r =>
            List.map (fun c =>
              if existsb (fun g => pixel_covered E g transform r c) shapes
              then default_value else fill)
              (seq 0 out_shape.2))
            (seq 0 out_shape.1))
  end.

(** [profile[key]] as a dimension. *)
Definition profile_dim (profile : gmap string pval) (key : string) : result nat :=
  match profile !! key with
  | None => Raise (KeyError key)
  | Some (PInt z) =>
      if (z <? 0)%Z then Raise (ValueError "negative dimensions are not allowed")
      else Ok (Z.to_nat z)
  | Some _ => Raise (ValueError "not an integer")
  end.

(** The profile of the mask, from the profile of the image and the
    extension of the mask file (lines 434-452). *)
Definition mask_profile (image_profile : gmap string pval)
    (output_ext_lower : string) : gmap string pval :=
  let image_output_profile :=
    <["nodata":=PInt 0]> (<["compress":=PStr "lzw"]>
      (<["count":=PInt 1]> (<["dtype":=PStr "uint8"]> image_profile))) in
  if String.eqb output_ext_lower ".tif" then
    <["compress":=PStr "lzw"]> image_output_profile
  else if String.eqb output_ext_lower ".jpg" || String.eqb output_ext_lower ".jpeg" then
    delete "photometric" (delete "interleave" (delete "compress"
      (delete "tiled" (<["sharing":=PNone]> image_output_profile))))
  else image_output_profile.

(** [np.size(burned, 0) * np.size(burned, 1)]. *)
Definition nb_pixels_of (burned : list (list Z)) : nat :=
  (length burned * match burned with [] => 0 | r :: _ => length r end)%nat.

(** [np.sum(burned == 0)]. *)
Definition nb_zero (burned : list (list Z)) : nat :=
  list_sum (List.map (fun r => length (List.filter (fun v => (v =? 0)%Z) r)) burned).

(** [nb_pixels_data / nb_pixels >= minimum_pct_labeled]: the quotient
    of the two counts as floats (numpy's true division: with no pixel it
    is not a number, and the comparison is false). *)
Definition enough_labeled (burned : list (list Z)) (minimum_pct_labeled : float)
    : bool :=
  let nb_pixels := Z.of_nat (nb_pixels_of burned) in
  let nb_pixels_data := (nb_pixels - Z.of_nat (nb_zero burned))%Z in
  fleb minimum_pct_labeled
    (fdiv (float_of_int nb_pixels_data) (float_of_int nb_pixels)).

(** [_create_mask]: [None] when the mask was there already, otherwise
    whether it was written.  (When the dataset cannot be written the
    error is raised with the file system as it was.) *)
Definition _create_mask
    (input_vector_label_list : list G)
    (input_image_filepath output_mask_filepath : path)
    (output_imagecopy_filepath : option path)
    (burn_value : Z) (minimum_pct_labeled : float) (force : bool)
    : IO (option bool) :=
  do mask_exists <- path_exists output_mask_filepath;
  if negb force && mask_exists then ret None
  else
    do c <- read_content input_image_filepath;
    match c with
    | Blob _ => raise (ExternalError "RasterioIOError")
    | Raster image_ds =>
        let image_transform_affine := ds_transform image_ds in
        let output_ext_lower :=
          lower (splitext_ext false (basename output_mask_filepath)) in
        let image_output_profile :=
          mask_profile (r_profile image_ds) output_ext_lower in
        do width <- lift (profile_dim image_output_profile "width");
        do height <- lift (profile_dim image_output_profile "height");
        do burned <-
          lift (rasterize input_vector_label_list 0 burn_value
                  image_transform_affine (width, height));
        if enough_labeled burned minimum_pct_labeled then
          do mask_ds <-
            lift (of_external (dataset_write E image_output_profile burned));
          write_content output_mask_filepath (Raster mask_ds);;
          match output_imagecopy_filepath with
          | Some copy_path => copyfile input_image_filepath copy_path
          | None => ret tt
          end;;
          ret (Some true)
        else ret (Some false)
    end.

(** *** The legacy converter *)

(** [get_bbox_translated]. *)
Definition get_bbox_translated
    (image_pixel_x_size image_pixel_y_size image_srs_width image_srs_height : float)
    (geom : G) : result G :=
  let '(b0, b1, _, _) := bounds E geom in
  match pymod b0 image_pixel_x_size with
  | Raise e => Raise e
  | Ok mx =>
      let xmin := fsub (fsub b0 mx) (float_of_int 10) in
      match pymod b1 image_pixel_y_size with
      | Raise e => Raise e
      | Ok my =>
          let ymin := fsub (fsub b1 my) (float_of_int 10) in
          Ok (box_geom E (mk_box xmin ymin (fadd xmin image_srs_width)
                            (fadd ymin image_srs_height)))
      end
  end.

(** [df.geometry.apply(f)]. *)
Fixpoint apply_geometry (f : G -> result G) (rs : list (row G))
    : result (list (row G)) :=
  match rs with
  | [] => Ok []
  | r :: rs' =>
      match f (geometry r) with
      | Raise e => Raise e
      | Ok g =>
          match apply_geometry f rs' with
          | Raise e => Raise e
          | Ok rs'' => Ok (mk_row g (attrs r) :: rs'')
          end
      end
  end.

(** Read one legacy file and tag it (lines 280-287). *)
Definition read_legacy (p : path) (traindata_type : string) : IO (gdf G) :=
  do df <- geofile_read_file p;
  let df := df_set_column "traindata_type" (VStr traindata_type) df in
  ret (if bool_decide ("image" ∈ columns df) then df
       else df_set_column "image" VNone df).

Definition legacy_paths (labellocations_path : path) : path * path * path :=
  let label_dir := dirname labellocations_path in
  let labellocations_filename := basename labellocations_path in
  let subject := List.hd "" (split_on "_" labellocations_filename) in
  (label_dir ++ [subject +:+ "_trainlabels.shp"],
   label_dir ++ [subject +:+ "_validationlabels.shp"],
   label_dir ++ [subject +:+ "_testlabels.shp"]).

Definition convert_traindata_v1tov2
    (labellocations_path labeldata_path : path)
    (image_pixel_x_size image_pixel_y_size image_srs_width image_srs_height : float)
    : IO bool :=
  let subject := List.hd "" (split_on "_" (basename labellocations_path)) in
  let '(label_train_path, label_validation_path, label_test_path) :=
    legacy_paths labellocations_path in
  do train_exists <- path_exists label_train_path;
  do validation_exists <- path_exists label_validation_path;
  if negb train_exists || negb validation_exists then ret false
  else
    do label_train_gdf <- read_legacy label_train_path "train";
    do label_validation_gdf <- read_legacy label_validation_path "validation";
    let label_gdf :=
      df_concat (crs label_train_gdf) label_train_gdf label_validation_gdf in
    do test_exists <- path_exists label_test_path;
    do label_gdf <-
      (if test_exists : bool then
         do label_test_gdf <- read_legacy label_test_path "test";
         ret (df_concat (crs label_gdf) label_gdf label_test_gdf)
       else ret label_gdf);
    let label_gdf := df_set_column "label_name" (VStr subject) label_gdf in
    let label_gdf :=
      df_rename "image" "image_layer" (df_rename "desc" "description" label_gdf) in
    do labellocations_gdf <-
      lift (df_filter "usebounds" (value_eqb (VInt 1)) label_gdf);
    do labellocations_gdf <-
      lift (df_drop ["usebounds"; "burninmask"] labellocations_gdf);
    do translated <-
      lift (apply_geometry
              (get_bbox_translated image_pixel_x_size image_pixel_y_size
                 image_srs_width image_srs_height)
              (rows labellocations_gdf));
    geofile_to_file
      (mk_gdf (crs labellocations_gdf) (columns labellocations_gdf) translated)
      labellocations_path;;
    do labeldata_gdf <-
      lift (df_filter "burninmask" (value_eqb (VInt 1)) label_gdf);
    do labeldata_gdf <-
      lift (df_drop ["usebounds"; "burninmask"; "traindata_type"] labeldata_gdf);
    geofile_to_file labeldata_gdf labeldata_path;;
    ret true.

(** *** The version resolver (lines 89-129) *)

Definition not_busy (name : string) : bool := negb (endswith name "_BUSY").

(** [int(name)], raising [ValueError]. *)
Definition int_of (name : string) : IO Z :=
  match py_int name with
  | Some v => ret v
  | None => raise (ValueError ("invalid literal for int(): " +:+ name))
  end.

(** Whether the input files are as their copies in the most recent
    version (lines 115-124). *)
Definition inputs_unchanged (a : build_args) (output_dir_mostrecent : path)
    : IO bool :=
  let labellocations_output_mostrecent_path :=
    output_dir_mostrecent ++ [basename (labellocations_path a)] in
  let labeldata_output_mostrecent_path :=
    output_dir_mostrecent ++ [basename (labeldata_path a)] in
  do locations_copied <- path_exists labellocations_output_mostrecent_path;
  do data_copied <- path_exists labeldata_output_mostrecent_path;
  if locations_copied && data_copied then
    do same_locations <-
      geofile_cmp (labellocations_path a)
        labellocations_output_mostrecent_path;
    if same_locations : bool then
      geofile_cmp (labeldata_path a) labeldata_output_mostrecent_path
    else ret false
  else ret false.

(** The version of the most recent legacy directory (lines 102-104). *)
Definition legacy_version (output_legacy_subdir_mostrecent : string) : IO Z :=
  match split_on "_" output_legacy_subdir_mostrecent !! 1%nat with
  | None => raise IndexError
  | Some piece => int_of piece
  end.

Definition resolve_version (a : build_args) : IO resolution :=
  do output_dirs <- glob_dirs (fnmatch E) (training_dir a) glob_digit_star;
  let output_dirs :=
    List.filter (fun output_dir => not_busy (path_str output_dir)) output_dirs in
  match greatest_path output_dirs with
  | None =>
      do output_legacy_train_dirs <-
        glob_dirs (fnmatch E) (training_dir a) glob_train_digit_star;
      let output_legacy_train_dirs :=
        List.filter (fun output_dir => not_busy (path_str output_dir))
          output_legacy_train_dirs in
      match greatest_path output_legacy_train_dirs with
      | None => ret (Build 1)
      | Some output_legacy_dir_mostrecent =>
          do dataversion_mostrecent <-
            legacy_version (basename output_legacy_dir_mostrecent);
          ret (Build (dataversion_mostrecent + 1))
      end
  | Some output_dir_mostrecent =>
      do dataversion_mostrecent <- int_of (basename output_dir_mostrecent);
      do unchanged <- inputs_unchanged a output_dir_mostrecent;
      if unchanged : bool
      then ret (Reuse output_dir_mostrecent dataversion_mostrecent)
      else ret (Build (dataversion_mostrecent + 1))
  end.

(** *** Input files (lines 74-87) *)

Definition image_srs_width (a : build_args) : float :=
  fabs (fmul (float_of_int (image_pixel_width a)) (image_pixel_x_size a)).
Definition image_srs_height (a : build_args) : float :=
  fabs (fmul (float_of_int (image_pixel_height a)) (image_pixel_y_size a)).

Definition missing_input_message (a : build_args) : string :=
  "Stop: input file(s) don't exist: " +:+ path_str (labellocations_path a)
  +:+ " and/or " +:+ path_str (labeldata_path a).

Definition ensure_input_files (a : build_args) : IO unit :=
  do locations_exist <- path_exists (labellocations_path a);
  do data_exist <- path_exists (labeldata_path a);
  if negb locations_exist || negb data_exist then
    do convert_ok <-
      convert_traindata_v1tov2 (labellocations_path a) (labeldata_path a)
        (image_pixel_x_size a) (image_pixel_y_size a)
        (image_srs_width a) (image_srs_height a);
    if convert_ok : bool then ret tt
    else raise (Exception (missing_input_message a) None)
  else ret tt.

(** *** Staging (lines 131-153) *)

Definition busy_name (dataversion_new : Z) : string :=
  format_02d dataversion_new +:+ "_BUSY".

Definition output_tmp_basedir (a : build_args) (dataversion_new : Z) : path :=
  training_dir a ++ [busy_name dataversion_new].

Definition output_basedir (a : build_args) (dataversion_new : Z) : path :=
  training_dir a ++ [format_02d dataversion_new].

(** What the loops need from the staging step. *)
Record build_context := mk_context
  { labellocations_gdf : gdf G;
    img_srs : string;
    labels_to_burn : list G }.

(** The staging directory is made afresh (lines 132-136). *)
Definition make_staging_dir (a : build_args) (dataversion_new : Z) : IO unit :=
  let tmp := output_tmp_basedir a dataversion_new in
  do stale <- path_exists tmp;
  (if stale : bool then rmtree tmp else ret tt);;
  do present <- path_exists tmp;
  if present : bool then ret tt else makedirs tmp.

(** The input files are copied into the staging directory
    (lines 138-141). *)
Definition copy_inputs (a : build_args) (dataversion_new : Z) : IO unit :=
  let tmp := output_tmp_basedir a dataversion_new in
  geofile_copy (labellocations_path a) tmp;;
  geofile_copy (labeldata_path a) tmp.

(** The input files are read (lines 143-153). *)
Definition read_inputs (a : build_args) : IO build_context :=
  do labellocations_gdf <- geofile_read_file (labellocations_path a);
  do labeldata_gdf <- geofile_read_file (labeldata_path a);
  do img_srs <-
    match crs labellocations_gdf !! "init" with
    | Some srs => ret srs
    | None => raise (KeyError "init")
    end;
  do labels_to_burn_gdf <-
    lift (df_filter "label_name"
            (fun v => match v with
                      | VStr name => bool_decide (name ∈ label_names_to_burn a)
                      | _ => false
                      end)
            labeldata_gdf);
  ret (mk_context labellocations_gdf img_srs
         (List.map geometry (rows labels_to_burn_gdf))).

Definition stage_inputs (a : build_args) (dataversion_new : Z) : IO build_context :=
  copy_inputs a dataversion_new;;
  read_inputs a.

(** *** The loop over the labels of one split (lines 181-249) *)

(** The layer of a label: its own if it has one, else the default. *)
Definition image_layer_of (a : build_args) (has_image_layer : bool)
    (label_tuple : row G) : value :=
  if has_image_layer then
    match row_get "image_layer" label_tuple with
    | VNone => VStr (default_image_layer a)
    | VStr "" => VStr (default_image_layer a)
    | v => v
    end
  else VStr (default_image_layer a).

(** [image_layers[image_layer]]. *)
Definition layer_config_of (a : build_args) (image_layer : value)
    : result (string * layer_config) :=
  match image_layer with
  | VStr name =>
      match image_layers a !! name with
      | Some cfg => Ok (name, cfg)
      | None => Raise (KeyError name)
      end
  | _ => Raise (KeyError "image_layer")
  end.

Definition process_label (a : build_args) (ctx : build_context)
    (traindata_type : string)
    (output_tmp_image_dir output_tmp_mask_dir : path)
    (st : split_state) (label_tuple : row G) : IO split_state :=
  do img_bbox <-
    lift (tile_box (bounds E (geometry label_tuple))
            (image_pixel_x_size a) (image_pixel_y_size a)
            (image_srs_width a) (image_srs_height a));
  if intersects_any (created_images st) img_bbox then ret st
  else
    log (EvAccept traindata_type img_bbox);;
    let created := created_images st ++ [img_bbox] in
    let image_layer :=
      image_layer_of a
        (bool_decide ("image_layer" ∈ columns (labellocations_gdf ctx)))
        label_tuple in
    do layer <- lift (layer_config_of a image_layer);
    let '(name, cfg) := layer in
    do server <-
      match wms_servers st !! name with
      | Some server => ret server
      | None =>
          match wms_connect E (wms_server_url cfg) (wms_version cfg) with
          | Some msg => raise (ExternalError msg)
          | None => ret (mk_wms (wms_server_url cfg) (wms_version cfg))
          end
      end;
    let servers := <[name:=server]> (wms_servers st) in
    let request :=
      mk_request server (wms_layernames cfg) (wms_layerstyles cfg)
        output_tmp_image_dir (img_srs ctx) img_bbox
        (image_pixel_width a, image_pixel_height a) FORMAT_JPEG
        (image_pixels_ignore_border cfg) false in
    log (EvFetch traindata_type request);;
    do files <- get_fs;
    do fetched <- lift (of_external (getmap E files request));
    match fetched with
    | Some (image_name, image) =>
        let image_filepath := output_tmp_image_dir ++ [image_name] in
        let mask_filepath := output_tmp_mask_dir ++ [image_name] in
        write_content image_filepath (Raster image);;
        log (EvMask traindata_type image_filepath mask_filepath);;
        _create_mask (labels_to_burn ctx) image_filepath mask_filepath None
          (burn_value a) 0 (force a);;
        ret (mk_split_state created servers)
    | None => ret (mk_split_state created servers)
    end.

Fixpoint process_labels (a : build_args) (ctx : build_context)
    (traindata_type : string)
    (output_tmp_image_dir output_tmp_mask_dir : path)
    (st : split_state) (labels : list (row G)) : IO split_state :=
  match labels with
  | [] => ret st
  | label_tuple :: labels' =>
      do st' <- process_label a ctx traindata_type
                  output_tmp_image_dir output_tmp_mask_dir st label_tuple;
      process_labels a ctx traindata_type
        output_tmp_image_dir output_tmp_mask_dir st' labels'
  end.

(** The labels of a split: [gdf[gdf['traindata_type'] == t]]. *)
Definition labels_of_split (ctx : build_context) (traindata_type : string)
    : result (list (row G)) :=
  match df_filter "traindata_type" (value_eqb (VStr traindata_type))
          (labellocations_gdf ctx) with
  | Ok df => Ok (rows df)
  | Raise e => Raise e
  end.

(** The body of the [try] of one split. *)
Definition split_body (a : build_args) (ctx : build_context)
    (traindata_type : string)
    (output_tmp_image_dir output_tmp_mask_dir : path) : IO split_state :=
  do labels <- lift (labels_of_split ctx traindata_type);
  process_labels a ctx traindata_type
    output_tmp_image_dir output_tmp_mask_dir
    (mk_split_state [] ∅) labels.

(** [if dir and not os.path.exists(dir): os.makedirs(dir)]. *)
Definition ensure_dir (dir : path) : IO unit :=
  match dir with
  | [] => ret tt
  | _ =>
      do present <- path_exists dir;
      if present : bool then ret tt else makedirs dir
  end.

(** One round of the loop over the splits (lines 158-252). *)
Definition prepare_split (a : build_args) (ctx : build_context)
    (dataversion_new : Z) (traindata_type : string) : IO unit :=
  let output_tmp_dir := output_tmp_basedir a dataversion_new ++ [traindata_type] in
  let output_tmp_image_dir := output_tmp_dir ++ ["image"] in
  let output_tmp_mask_dir := output_tmp_dir ++ ["mask"] in
  ensure_dir output_tmp_dir;;
  ensure_dir output_tmp_mask_dir;;
  ensure_dir output_tmp_image_dir;;
  try_except
    (split_body a ctx traindata_type output_tmp_image_dir output_tmp_mask_dir;;
     log (EvSplitDone traindata_type))
    (fun ex =>
       log (EvLoopError traindata_type ex);;
       raise (Exception "Error preparing dataset!" (Some ex))).

Definition traindata_types : list string := ["train"; "validation"; "test"].

Fixpoint prepare_splits (a : build_args) (ctx : build_context)
    (dataversion_new : Z) (types : list string) : IO unit :=
  match types with
  | [] => ret tt
  | traindata_type :: types' =>
      prepare_split a ctx dataversion_new traindata_type;;
      prepare_splits a ctx dataversion_new types'
  end.

(** The promotion of the staging directory (lines 254-258). *)
Definition promote (a : build_args) (dataversion_new : Z) : IO (path * Z) :=
  rename (output_tmp_basedir a dataversion_new) (output_basedir a dataversion_new);;
  log (EvRename (output_tmp_basedir a dataversion_new)
         (output_basedir a dataversion_new));;
  ret (output_basedir a dataversion_new, dataversion_new).

(** The build of a new version (lines 131-258). *)
Definition build_version (a : build_args) (dataversion_new : Z) : IO (path * Z) :=
  make_staging_dir a dataversion_new;;
  do ctx <- stage_inputs a dataversion_new;
  prepare_splits a ctx dataversion_new traindata_types;;
  promote a dataversion_new.

Definition prepare_traindatasets (a : build_args) : IO (path * Z) :=
  ensure_input_files a;;
  do resolved <- resolve_version a;
  match resolved with
  | Reuse output_dir_mostrecent dataversion_mostrecent =>
      ret (output_dir_mostrecent, dataversion_mostrecent)
  | Build dataversion_new => build_version a dataversion_new
  end.

End Builder.

(* ================================================================== *)
(** ** Vocabulary of the statements *)
(* ================================================================== *)

(** The events a call added to the trace. *)
Definition new_events (w w' : world) : list event :=
  drop (length (trace w)) (trace w').

Definition accepted_boxes (evs : list event) : list Box :=
  omap (fun e => match e with EvAccept _ b => Some b | _ => None end) evs.

Definition fetched_boxes (evs : list event) : list Box :=
  omap (fun e => match e with EvFetch _ req => Some (gm_bbox req) | _ => None end) evs.

Definition masked_images (evs : list event) : list path :=
  omap (fun e => match e with EvMask _ image _ => Some image | _ => None end) evs.

(** The events of the loop over the labels of the split [t]. *)
Definition progress_event (t : string) (e : event) : Prop :=
  match e with
  | EvAccept t' _ | EvFetch t' _ | EvMask t' _ _ => t' = t
  | _ => False
  end.

Definition is_rename (e : event) : bool :=
  match e with EvRename _ _ => true | _ => false end.

(** No two boxes of the list intersect. *)
Definition pairwise_disjoint (boxes : list Box) : Prop :=
  forall i j a b, i ≠ j -> boxes !! i = Some a -> boxes !! j = Some b ->
    box_intersects a b = false.

(** The names the version resolver enumerates in a training directory
    that has no magic character in its name. *)
Definition version_names (training_dir : path) (n : node) : list string :=
  List.filter not_busy (list_dirs training_dir glob_digit_star n).

(** Two paths of which neither is above the other. *)
Definition disjoint_from (d q : path) : Prop :=
  ¬ d `prefix_of` q /\ ¬ q `prefix_of` d.

(** Nothing changed outside the tree of [d], the missing ancestors of [d]
    apart. *)
Definition frame (d : path) (w w' : world) : Prop :=
  forall q, disjoint_from d q -> stat q (fs w') = stat q (fs w).

(** Nothing was removed, and directories stayed directories. *)
Definition grows (w w' : world) : Prop :=
  forall q, (is_dir q (fs w) = true -> is_dir q (fs w') = true) /\
            (is_Some (stat q (fs w)) -> is_Some (stat q (fs w'))).

(** No directory was made or removed. *)
Definition same_dirs (w w' : world) : Prop :=
  forall q, is_dir q (fs w') = is_dir q (fs w).

(** The files at the paths of [K] kept their content. *)
Definition files_kept (K : path -> Prop) (w w' : world) : Prop :=
  forall q c, K q -> stat q (fs w) = Some (File c) -> stat q (fs w') = Some (File c).

(** The trace grew by events that satisfy [P]. *)
Definition emits (P : event -> Prop) (w w' : world) : Prop :=
  exists evs, trace w' = trace w ++ evs /\ Forall P evs.

(** Every run of the action relates the worlds before and after. *)
Definition respects {A} (R : relation world) (m : IO A) : Prop :=
  forall w w' r, m w = (w', r) -> R w w'.

(** The label locations that do not overlap, in the words of the
    specification: in source order, a tile box is accepted when it
    intersects no box accepted before it in the split. *)
Fixpoint select_non_overlapping (accepted candidates : list Box) : list Box :=
  match candidates with
  | [] => accepted
  | c :: cs =>
      if existsb (fun b => box_intersects b c) accepted
      then select_non_overlapping accepted cs
      else select_non_overlapping (accepted ++ [c]) cs
  end.

(** The same arguments with another [max_samples]. *)
Definition with_max_samples (m : Z) (a : build_args) : build_args :=
  mk_args (labellocations_path a) (labeldata_path a) (label_names_to_burn a)
    (image_layers a) (default_image_layer a) (training_dir a)
    (image_pixel_x_size a) (image_pixel_y_size a)
    (image_pixel_width a) (image_pixel_height a) m (burn_value a)
    (output_filelist_csv a) (output_keep_nested_dirs a) (force a).

(** The tile of a label, when it can be computed. *)
Definition tile_of {G} (E : externals G) (a : build_args) (label : row G)
    (b : Box) : Prop :=
  tile_box (bounds E (geometry label))
    (image_pixel_x_size a) (image_pixel_y_size a)
    (image_srs_width a) (image_srs_height a) = Ok b.












(** The next version in the words of the specification: 1 when no
    version directory is found, otherwise 1 + the maximum numeric name. *)
Definition spec_next_version (names : list string) : Z :=
  match omap py_int names with
  | [] => 1
  | v :: vs => 1 + foldr Z.max v vs
  end.

(** Whether a call promoted a staging directory. *)
Definition promoted (w w' : world) : bool :=
  existsb is_rename (new_events w w').

(** The versions a call built: the version it returns when it promoted
    a staging directory, none when it raised or reused a version. *)
Definition built_versions (w w' : world) (r : result (path * Z)) : list Z :=
  match r with
  | Ok (_, v) => if promoted w w' then [v] else []
  | Raise _ => []
  end.

(** What the rest of the world may do between two calls: the entries of
    the training directory without the BUSY suffix stay as they are
    (single writer), nothing in them is removed. *)
Definition versions_stable (training_dir : path) (w w' : world) : Prop :=
  forall name rest, not_busy name = true ->
    is_dir (training_dir ++ name :: rest) (fs w')
      = is_dir (training_dir ++ name :: rest) (fs w) /\
    (is_Some (stat (training_dir ++ name :: rest) (fs w)) ->
     is_Some (stat (training_dir ++ name :: rest) (fs w'))).

(** A history of calls of the builder on one training directory, with
    the versions built, in order. *)
Inductive history (training_root : path) : world -> list Z -> world -> Prop :=
| history_start w : history training_root w [] w
| history_other w versions w1 w2 :
    history training_root w versions w1 ->
    versions_stable training_root w1 w2 ->
    history training_root w versions w2
| history_call {G : Type} (E : externals G) a w versions w1 w2 r :
    history training_root w versions w1 ->
    training_dir a = training_root ->
    prepare_traindatasets E a w1 = (w2, r) ->
    history training_root w (versions ++ built_versions w1 w2 r) w2.

(** What the last version built leaves behind, as long as the entries of
    the training directory stay as they are: its directory holds the
    train split, and the greatest version name is its own name or a name
    that reads as the version before it. *)
Definition version_invariant (training_dir : path) (n : node) (last_version : Z) : Prop :=
  is_Some (stat (training_dir ++ [format_02d last_version; "train"]) n) /\
  exists m, greatest (version_names training_dir n) = Some m /\
    (m = format_02d last_version \/ py_int m = Some (last_version - 1)%Z).

(* ================================================================== *)
(** ** A small world to run the builder on *)
(* ================================================================== *)

Module Demo.
(** Geometries are boxes; a geometry covers the pixels of its bounds,
    read as rows and columns of the identity grid. *)
Definition covers (g : Box) (t : affine) (r c : nat) : bool :=
  fleb (bymin g) (float_of_int (Z.of_nat r)) &&
  fleb (float_of_int (Z.of_nat r)) (bymax g) &&
  fleb (bxmin g) (float_of_int (Z.of_nat c)) &&
  fleb (float_of_int (Z.of_nat c)) (bxmax g).

(** A box with whole coordinates. *)
Definition box (xmin ymin xmax ymax : Z) : Box :=
  mk_box (float_of_int xmin) (float_of_int ymin)
    (float_of_int xmax) (float_of_int ymax).

(** The floats [0.25], [0.5], [0.1] and [0.7]. *)
Definition quarter : float := fdiv (float_of_int 1) (float_of_int 4).

(** [fnmatch] for the patterns without [*], [?], ranges and negation:
    a set [[abc]] of one or more characters stands for one of them, any
    other character for itself. *)
Fixpoint match_chars (fuel : nat) (name pattern : list ascii) : bool :=
  match fuel with
  | O => false
  | S fuel' =>
      match pattern, name with
      | [], [] => true
      | "["%char :: pattern', c :: name' =>
          match list_find (fun x => bool_decide (x = "]"%char)) pattern' with
          | Some (i, _) =>
              bool_decide (c ∈ take i pattern') &&
              match_chars fuel' name' (drop (S i) pattern')
          | None => (c =? "[")%char && match_chars fuel' name' pattern'
          end
      | p :: pattern', c :: name' => (c =? p)%char && match_chars fuel' name' pattern'
      | _, _ => false
      end
  end.

Definition fnmatch_sets (name pattern : string) : bool :=
  match_chars (S (String.length pattern))
    (list_ascii_of_string name) (list_ascii_of_string pattern).

Definition locations : gdf Box :=
  mk_gdf {["init" := "epsg:31370"]} {["traindata_type"]}
    [mk_row (box 0 0 100 100) {["traindata_type" := VStr "train"]};
     mk_row (box 1 1 100 100) {["traindata_type" := VStr "train"]};
     mk_row (box 300 300 400 400) {["traindata_type" := VStr "validation"]}].

Definition data : gdf Box :=
  mk_gdf {["init" := "epsg:31370"]} {["label_name"]}
    [mk_row (mk_box 0 0 0 0) {["label_name" := VStr "building"]}].

(** The first byte of a file tells which table it holds. *)
Definition decode (bytes : list Byte.byte) : string + gdf Box :=
  match bytes with
  | Byte.x01 :: _ => inr locations
  | Byte.x02 :: _ => inr data
  | _ => inl "unreadable"
  end.

Definition image (width height : Z) : raster :=
  mk_raster {[ "width" := PInt width; "height" := PInt height;
               "transform" := PAffine affine_identity;
               "crs" := PCrs "epsg:31370"; "count" := PInt 3;
               "dtype" := PStr "uint8"; "driver" := PStr "JPEG" ]} [].

(** A server that answers every request with a 2 x 2 image; datasets
    are stored with the array as it is. *)
Definition server_up : externals Box :=
  mk_externals Box
    (fun b => (bxmin b, bymin b, bxmax b, bymax b))
    (fun b => b)
    covers decode
    (fun _ => inl "read-only")
    (fun _ _ => None)
    (fun _ _ => inr (Some ("tile.jpg", image 2 2)))
    fnmatch_sets
    (fun profile burned => inr (mk_raster profile [burned])).

(** A server that fails on every request. *)
Definition server_down : externals Box :=
  mk_externals Box
    (fun b => (bxmin b, bymin b, bxmax b, bymax b))
    (fun b => b)
    covers decode
    (fun _ => inl "read-only")
    (fun _ _ => None)
    (fun _ _ => inl "timeout")
    fnmatch_sets
    (fun profile burned => inr (mk_raster profile [burned])).

(** The input files; [renamed.gpkg] has the content of [locs.gpkg]
    under another name. *)
Definition files : node :=
  Dir {[ "in" := Dir {[ "locs.gpkg" := File (Blob [Byte.x01]);
                        "locs2.gpkg" := File (Blob [Byte.x01; Byte.x00]);
                        "renamed.gpkg" := File (Blob [Byte.x01]);
                        "data.gpkg" := File (Blob [Byte.x02]) ]} ]}.

Definition start : world := mk_world files [].

Definition args : build_args :=
  mk_args ["in"; "locs.gpkg"] ["in"; "data.gpkg"] ["building"]
    {[ "ortho" := mk_layer "http://wms" "1.3.0" ["layer"] ["default"] 0 ]}
    "ortho" ["training"] quarter quarter 512 512 5000 255 "" false false.

(** The same build from the other locations file. *)
Definition args2 : build_args :=
  mk_args ["in"; "locs2.gpkg"] ["in"; "data.gpkg"] ["building"]
    {[ "ortho" := mk_layer "http://wms" "1.3.0" ["layer"] ["default"] 0 ]}
    "ortho" ["training"] quarter quarter 512 512 5000 255 "" false false.




(** A training directory named [data[1]], which [glob] reads as a
    pattern for the name [data1], and beside it a directory [data1]
    that holds a directory [07]. *)
Definition args_pattern : build_args :=
  mk_args ["in"; "locs.gpkg"] ["in"; "data.gpkg"] ["building"]
    {[ "ortho" := mk_layer "http://wms" "1.3.0" ["layer"] ["default"] 0 ]}
    "ortho" ["data[1]"] quarter quarter 512 512 5000 255 "" false false.

Definition pattern_start : world :=
  mk_world
    (Dir {[ "in" := Dir {[ "locs.gpkg" := File (Blob [Byte.x01]);
                           "data.gpkg" := File (Blob [Byte.x02]) ]};
            "data1" := Dir {[ "07" := Dir ∅ ]} ]}) [].

(** A world with another directory [data1]. *)
Definition with_data1 (entries : gmap string node) (w : world) : world :=
  mk_world
    (match fs w with
     | Dir es => Dir (<["data1" := Dir entries]> es)
     | File c => File c
     end)
    (trace w).

(** One split on its own: the directories of the images and the masks
    are there, and the tables are read. *)
Definition context : @build_context Box :=
  mk_context locations "epsg:31370" [mk_box 0 0 0 0].

Definition split_start : world :=
  mk_world (Dir {[ "image" := Dir ∅; "mask" := Dir ∅ ]}) [].

(** A square image and a tall one (one column, two rows), with an empty
    directory for their masks. *)
Definition mask_start : world :=
  mk_world (Dir {[ "image" := Dir {[ "tile.tif" := File (Raster (image 2 2));
                                     "tall.tif" := File (Raster (image 1 2)) ]};
                   "mask" := Dir ∅ ]}) [].

(** The training directory after a hundred builds, of which the last
    two are shown: versions 99 and 100, each with its copies of the
    inputs and its splits. *)
Definition version_dir (marker : Byte.byte) : node :=
  Dir {[ "locs.gpkg" := File (Blob [Byte.x01; marker]);
         "data.gpkg" := File (Blob [Byte.x02]);
         "train" := Dir ∅; "validation" := Dir ∅; "test" := Dir ∅ ]}.

Definition crowded : world :=
  mk_world
    (Dir {[ "in" := Dir {[ "locs.gpkg" := File (Blob [Byte.x01]);
                           "data.gpkg" := File (Blob [Byte.x02]) ]};
            "training" := Dir {[ "99" := version_dir Byte.x63;
                                 "100" := version_dir Byte.x64 ]} ]}) [].

Definition second_row_pixel : Box := box 0 1 0 1.
End Demo.
(* ---------- paths ---------- *)
Lemma lookup_path_None p : lookup_path p None = None.
Proof. by destruct p. Qed.

Lemma lookup_path_app p q n :
  lookup_path (p ++ q) n = lookup_path q (lookup_path p n).
Proof.
  revert n. induction p as [|x p IH]; intros n; simpl; [done|].
  destruct n as [[c|es]|]; simpl; rewrite ?lookup_path_None; auto.
Qed.

Lemma set_path_lookup p o n n' :
  set_path p o n = Some n' -> lookup_path p n' = o.
Proof.
  revert n n'. induction p as [|x p IH]; intros n n' H; simpl in *.
  - by inversion H.
  - destruct n as [[c|es]|]; try done.
    destruct (set_path p o (es !! x)) as [[c|]|] eqn:Hs; inversion H; subst; simpl.
    + rewrite lookup_insert_eq. eauto.
    + rewrite lookup_delete_eq. apply (IH _ _ Hs).
Qed.

Lemma set_path_disjoint p o n n' q :
  set_path p o n = Some n' ->
  ¬ p `prefix_of` q -> ¬ q `prefix_of` p ->
  lookup_path q n' = lookup_path q n.
Proof.
  revert n n' q. induction p as [|x p IH]; intros n n' q H Hpq Hqp.
  - destruct Hpq. apply prefix_nil.
  - destruct q as [|y q]; [destruct Hqp; apply prefix_nil|].
    simpl in H. destruct n as [[c|es]|]; try done.
    destruct (set_path p o (es !! x)) as [[c|]|] eqn:Hs; inversion H; subst; simpl.
    + destruct (decide (x = y)) as [->|Hne].
      * rewrite lookup_insert_eq. apply (IH _ _ _ Hs).
        -- intros Hp. apply Hpq. by apply prefix_cons.
        -- intros Hp. apply Hqp. by apply prefix_cons.
      * by rewrite lookup_insert_ne.
    + destruct (decide (x = y)) as [->|Hne].
      * rewrite lookup_delete_eq, lookup_path_None.
        symmetry. rewrite <- (IH _ _ q Hs); [by rewrite lookup_path_None| |].
        -- intros Hp. apply Hpq. by apply prefix_cons.
        -- intros Hp. apply Hqp. by apply prefix_cons.
      * by rewrite lookup_delete_ne.
Qed.

(** A strict ancestor of a path that was set is a directory before and after. *)
Lemma set_path_above p o n n' q :
  set_path p o n = Some n' ->
  q `prefix_of` p -> q ≠ p ->
  (exists es, lookup_path q n = Some (Dir es)) /\
  (exists es, lookup_path q n' = Some (Dir es)).
Proof.
  revert n n' q. induction p as [|x p IH]; intros n n' q H Hqp Hne.
  - apply prefix_nil_inv in Hqp. done.
  - simpl in H. destruct n as [[c|es]|]; try done.
    destruct q as [|y q].
    + simpl. split; [eauto|].
      destruct (set_path p o (es !! x)) as [[c|]|]; inversion H; eauto.
    + assert (y = x) as -> by (by apply prefix_cons_inv_1 in Hqp).
      apply prefix_cons_inv_2 in Hqp.
      assert (q ≠ p) by congruence.
      destruct (set_path p o (es !! x)) as [[c|]|] eqn:Hs; inversion H; subst; simpl.
      * rewrite lookup_insert_eq. apply (IH _ _ _ Hs); auto.
      * destruct (IH _ _ _ Hs Hqp) as [_ [es' Hes']]; auto.
        rewrite lookup_path_None in Hes'. done.
Qed.
(* ---------- stat and put ---------- *)
Lemma stat_app p q n : stat (p ++ q) n = lookup_path q (stat p n).
Proof. apply lookup_path_app. Qed.

Lemma put_inv p o n n' :
  put p o n = Ok n' -> set_path p o (Some n) = Some (Some n').
Proof.
  unfold put. destruct (set_path p o (Some n)) as [[x|]|]; intros H; by inversion H.
Qed.

Lemma put_stat_same p o n n' : put p o n = Ok n' -> stat p n' = o.
Proof. intros H%put_inv. by apply set_path_lookup in H. Qed.

Lemma put_stat_under p q o n n' :
  put p o n = Ok n' -> stat (p ++ q) n' = lookup_path q o.
Proof. intros H. rewrite stat_app. by rewrite (put_stat_same p o n n' H). Qed.

Lemma put_stat_disjoint p o n n' q :
  put p o n = Ok n' -> ¬ p `prefix_of` q -> ¬ q `prefix_of` p ->
  stat q n' = stat q n.
Proof. intros H%put_inv. by apply (set_path_disjoint p o). Qed.

Lemma put_stat_above p o n n' q :
  put p o n = Ok n' -> q `prefix_of` p -> q ≠ p ->
  is_dir q n = true /\ is_dir q n' = true.
Proof.
  intros H%put_inv Hq Hne.
  destruct (set_path_above _ _ _ _ _ H Hq Hne) as [[es1 H1] [es2 H2]].
  unfold is_dir, stat. by rewrite H1, H2.
Qed.

Lemma stat_below_None p q n : stat p n = None -> stat (p ++ q) n = None.
Proof. intros H. by rewrite stat_app, H, lookup_path_None. Qed.

Lemma stat_below_File p q c n :
  stat p n = Some (File c) -> q ≠ [] -> stat (p ++ q) n = None.
Proof. intros H Hq. rewrite stat_app, H. destruct q; [done|]. done. Qed.

Lemma is_dir_true p n : is_dir p n = true <-> exists es, stat p n = Some (Dir es).
Proof.
  unfold is_dir. destruct (stat p n) as [[c|es]|]; split; try done; eauto.
  - by intros [? ?].
  - by intros [? ?].
Qed.

(** Three cases for two paths. *)
Lemma path_cases (p q : path) :
  (exists r, q = p ++ r) \/ (q `prefix_of` p /\ q ≠ p) \/
  (¬ p `prefix_of` q /\ ¬ q `prefix_of` p).
Proof.
  destruct (decide (p `prefix_of` q)) as [[r ->]|Hpq]; [eauto|].
  destruct (decide (q `prefix_of` p)) as [Hqp|Hqp]; [|by right; right].
  right; left. split; [done|]. intros ->. apply Hpq. done.
Qed.

(** Overwriting a file or creating a node keeps everything else. *)
Lemma put_fresh_grows p x n n' :
  put p (Some x) n = Ok n' ->
  (forall es, stat p n ≠ Some (Dir es)) ->
  forall q, (is_dir q n = true -> is_dir q n' = true) /\
            (is_Some (stat q n) -> is_Some (stat q n')).
Proof.
  intros Hput Hp q.
  destruct (path_cases p q) as [[r ->]|[[Hq Hne]|[H1 H2]]].
  - destruct r as [|y r].
    + rewrite app_nil_r. split.
      * intros [es Hes]%is_dir_true. by destruct (Hp es).
      * intros _. rewrite (put_stat_same p (Some x) n n' Hput). eauto.
    + assert (stat (p ++ y :: r) n = None) as Hnone.
      { destruct (stat p n) as [[c|es]|] eqn:Hs.
        - by apply (stat_below_File _ _ c).
        - by destruct (Hp es).
        - by apply stat_below_None. }
      unfold is_dir. rewrite Hnone. split; [done|]. by intros [? ?].
  - destruct (put_stat_above _ _ _ _ _ Hput Hq Hne) as [Ha Hb]. split; [done|].
    intros _. apply is_dir_true in Hb as [es ->]. eauto.
  - unfold is_dir. by rewrite (put_stat_disjoint _ _ _ _ _ Hput H1 H2).
Qed.

(* ---------- the monad ---------- *)
Lemma bind_inv {A B} (m : IO A) (k : A -> IO B) w w' r :
  bind m k w = (w', r) ->
  (exists w1 a, m w = (w1, Ok a) /\ k a w1 = (w', r)) \/
  (exists e, m w = (w', Raise e) /\ r = Raise e).
Proof.
  unfold bind. destruct (m w) as [w1 [a|e]]; intros H.
  - left. eauto.
  - right. inversion H; subst. eauto.
Qed.

Lemma bind_ok {A B} (m : IO A) (k : A -> IO B) w w1 a :
  m w = (w1, Ok a) -> bind m k w = k a w1.
Proof. unfold bind. by intros ->. Qed.


Lemma update_fs_inv f w w' r :
  update_fs f w = (w', r) ->
  (exists n', f (fs w) = Ok n' /\ w' = mk_world n' (trace w) /\ r = Ok tt) \/
  (exists e, f (fs w) = Raise e /\ w' = w /\ r = Raise e).
Proof.
  unfold update_fs. destruct (f (fs w)) as [n'|e]; intros H; inversion H; subst; eauto.
Qed.

Section Respects.
Context (R : relation world) `{!PreOrder R}.

Lemma respects_ret {A} (a : A) : respects R (ret a).
Proof. intros w w' r H. inversion H; subst. reflexivity. Qed.

Lemma respects_raise {A} e : respects R (@raise A e).
Proof. intros w w' r H. inversion H; subst. reflexivity. Qed.

Lemma respects_lift {A} (x : result A) : respects R (lift x).
Proof. intros w w' r H. inversion H; subst. reflexivity. Qed.

Lemma respects_get_fs : respects R get_fs.
Proof. intros w w' r H. inversion H; subst. reflexivity. Qed.

Lemma respects_path_exists p : respects R (path_exists p).
Proof. intros w w' r H. inversion H; subst. reflexivity. Qed.

Lemma respects_read_content p : respects R (read_content p).
Proof.
  intros w w' r H. unfold read_content in H.
  destruct (stat p (fs w)) as [[c|es]|]; inversion H; subst; reflexivity.
Qed.

Lemma respects_glob_dirs fn d pat : respects R (glob_dirs fn d pat).
Proof. intros w w' r H. inversion H; subst. reflexivity. Qed.

Lemma respects_bind {A B} (m : IO A) (k : A -> IO B) :
  respects R m -> (forall a, respects R (k a)) -> respects R (bind m k).
Proof.
  intros Hm Hk w w' r H.
  apply bind_inv in H as [(w1 & a & H1 & H2)|(e & H1 & _)].
  - transitivity w1; [by eapply Hm | by eapply Hk].
  - by eapply Hm.
Qed.

Lemma respects_try_except {A} (m : IO A) h :
  respects R m -> (forall e, respects R (h e)) -> respects R (try_except m h).
Proof.
  intros Hm Hh w w' r H. unfold try_except in H.
  destruct (m w) as [w1 [a|e]] eqn:Hmw.
  - inversion H; subst. by eapply Hm.
  - transitivity w1; [by eapply Hm | by eapply Hh].
Qed.
End Respects.
(* ---------- the relations are preorders ---------- *)
#[local] Instance frame_preorder d : PreOrder (frame d).
Proof.
  split.
  - by intros w q Hq.
  - intros w1 w2 w3 H12 H23 q Hq. by rewrite (H23 q Hq), (H12 q Hq).
Qed.

#[local] Instance grows_preorder : PreOrder grows.
Proof.
  split.
  - by intros w q.
  - intros w1 w2 w3 H12 H23 q. destruct (H12 q), (H23 q). split; auto.
Qed.

#[local] Instance same_dirs_preorder : PreOrder same_dirs.
Proof.
  split.
  - by intros w q.
  - intros w1 w2 w3 H12 H23 q. by rewrite (H23 q), (H12 q).
Qed.

#[local] Instance files_kept_preorder K : PreOrder (files_kept K).
Proof.
  split.
  - by intros w q c.
  - intros w1 w2 w3 H12 H23 q c HK Hq. eauto.
Qed.

#[local] Instance emits_preorder P : PreOrder (emits P).
Proof.
  split.
  - intros w. exists []. by rewrite app_nil_r.
  - intros w1 w2 w3 (e1 & H1 & F1) (e2 & H2 & F2). exists (e1 ++ e2).
    rewrite H2, H1, app_assoc. split; [done|]. by apply Forall_app.
Qed.

Lemma emits_same_trace P w w' : trace w' = trace w -> emits P w w'.
Proof. intros H. exists []. by rewrite app_nil_r. Qed.

(* ---------- the changes of the file system ---------- *)
Lemma write_content_inv p c w w' r :
  write_content p c w = (w', r) ->
  (exists n', (forall es, stat p (fs w) ≠ Some (Dir es)) /\
              put p (Some (File c)) (fs w) = Ok n' /\
              w' = mk_world n' (trace w) /\ r = Ok tt) \/
  (exists e, w' = w /\ r = Raise e).
Proof.
  intros H. unfold write_content in H.
  apply update_fs_inv in H as [(n' & Hf & -> & ->)|(e & Hf & -> & ->)]; [|eauto].
  left. exists n'. destruct (stat p (fs w)) as [[c0|es]|] eqn:Hs; try done.
Qed.

Lemma mkdir_inv p w w' r :
  mkdir p w = (w', r) ->
  (exists n', stat p (fs w) = None /\ put p (Some (Dir ∅)) (fs w) = Ok n' /\
              w' = mk_world n' (trace w) /\ r = Ok tt) \/
  (exists e, w' = w /\ r = Raise e).
Proof.
  intros H. unfold mkdir in H.
  apply update_fs_inv in H as [(n' & Hf & -> & ->)|(e & Hf & -> & ->)]; [|eauto].
  left. exists n'. destruct (stat p (fs w)) as [x|] eqn:Hs; try done.
Qed.

Lemma rmtree_inv p w w' r :
  rmtree p w = (w', r) ->
  (exists n', is_dir p (fs w) = true /\ put p None (fs w) = Ok n' /\
              w' = mk_world n' (trace w) /\ r = Ok tt) \/
  (exists e, w' = w /\ r = Raise e).
Proof.
  intros H. unfold rmtree in H.
  apply update_fs_inv in H as [(n' & Hf & -> & ->)|(e & Hf & -> & ->)]; [|eauto].
  left. exists n'. unfold is_dir. destruct (stat p (fs w)) as [[c|es]|] eqn:Hs; try done.
Qed.

Lemma disjoint_from_under d p q :
  d `prefix_of` p -> disjoint_from d q -> ¬ p `prefix_of` q /\ ¬ q `prefix_of` p.
Proof.
  intros Hdp [H1 H2]. split.
  - intros Hpq. apply H1. by etransitivity.
  - intros Hqp. destruct (prefix_weak_total _ _ _ Hdp Hqp); auto.
Qed.

Lemma frame_put_under d p o w n' :
  d `prefix_of` p -> put p o (fs w) = Ok n' -> frame d w (mk_world n' (trace w)).
Proof.
  intros Hdp Hput q Hq. simpl.
  destruct (disjoint_from_under _ _ _ Hdp Hq).
  by apply (put_stat_disjoint p o).
Qed.

Lemma frame_write_content d p c :
  d `prefix_of` p -> respects (frame d) (write_content p c).
Proof.
  intros Hdp w w' r H.
  apply write_content_inv in H as [(n' & _ & Hput & -> & _)|(e & -> & _)]; [|reflexivity].
  by eapply frame_put_under.
Qed.

Lemma frame_rmtree d p : d `prefix_of` p -> respects (frame d) (rmtree p).
Proof.
  intros Hdp w w' r H.
  apply rmtree_inv in H as [(n' & _ & Hput & -> & _)|(e & -> & _)]; [|reflexivity].
  by eapply frame_put_under.
Qed.

Lemma frame_mkdir d p :
  d `prefix_of` p \/ p `prefix_of` d -> respects (frame d) (mkdir p).
Proof.
  intros Hdp w w' r H.
  apply mkdir_inv in H as [(n' & Hnone & Hput & -> & _)|(e & -> & _)]; [|reflexivity].
  destruct Hdp as [Hdp|Hpd]; [by eapply frame_put_under|].
  intros q [Hq1 Hq2]. simpl.
  destruct (path_cases p q) as [[r' ->]|[[Hq Hne]|[H1 H2]]].
  - destruct r' as [|y r'].
    + rewrite app_nil_r in Hq2. done.
    + rewrite (stat_below_None _ _ _ Hnone).
      rewrite (put_stat_under p (y :: r') _ _ _ Hput). simpl.
      by rewrite lookup_empty, lookup_path_None.
  - destruct Hq2. by etransitivity.
  - by apply (put_stat_disjoint p (Some (Dir ∅))).
Qed.

Lemma frame_log d e : respects (frame d) (log e).
Proof. intros w w' r H. inversion H; subst. by intros q Hq. Qed.

Lemma grows_write_content p c : respects grows (write_content p c).
Proof.
  intros w w' r H.
  apply write_content_inv in H as [(n' & Hnd & Hput & -> & _)|(e & -> & _)]; [|reflexivity].
  intros q. by apply (put_fresh_grows p (File c)).
Qed.

Lemma grows_mkdir p : respects grows (mkdir p).
Proof.
  intros w w' r H.
  apply mkdir_inv in H as [(n' & Hnone & Hput & -> & _)|(e & -> & _)]; [|reflexivity].
  intros q. apply (put_fresh_grows p (Dir ∅)); [done|].
  intros es. by rewrite Hnone.
Qed.

Lemma grows_log e : respects grows (log e).
Proof. intros w w' r H. inversion H; subst. by intros q. Qed.

Lemma same_dirs_write_content p c : respects same_dirs (write_content p c).
Proof.
  intros w w' r H.
  apply write_content_inv in H as [(n' & Hnd & Hput & -> & _)|(e & -> & _)]; [|reflexivity].
  intros q. simpl.
  destruct (path_cases p q) as [[r' ->]|[[Hq Hne]|[H1 H2]]].
  - unfold is_dir. rewrite (put_stat_under p r' _ _ _ Hput).
    destruct r' as [|y r'].
    + rewrite app_nil_r. simpl.
      destruct (stat p (fs w)) as [[c0|es]|] eqn:Hs; try done. by destruct (Hnd es).
    + simpl. destruct (stat p (fs w)) as [[c0|es]|] eqn:Hs.
      * by rewrite (stat_below_File _ _ c0).
      * by destruct (Hnd es).
      * by rewrite (stat_below_None _ _ _ Hs).
  - destruct (put_stat_above _ _ _ _ _ Hput Hq Hne) as [-> ->]. done.
  - unfold is_dir. by rewrite (put_stat_disjoint p _ _ _ _ Hput H1 H2).
Qed.

Lemma same_dirs_log e : respects same_dirs (log e).
Proof. intros w w' r H. inversion H; subst. by intros q. Qed.

Lemma files_kept_write_content K p c :
  ¬ K p -> respects (files_kept K) (write_content p c).
Proof.
  intros HK w w' r H.
  apply write_content_inv in H as [(n' & Hnd & Hput & -> & _)|(e & -> & _)]; [|reflexivity].
  intros q c0 HKq Hq. simpl.
  destruct (path_cases p q) as [[r' ->]|[[Hqp Hne]|[H1 H2]]].
  - destruct r' as [|y r']; [by rewrite app_nil_r in HKq|].
    destruct (stat p (fs w)) as [[c1|es]|] eqn:Hs.
    + by rewrite (stat_below_File _ _ c1) in Hq.
    + by destruct (Hnd es).
    + by rewrite (stat_below_None _ _ _ Hs) in Hq.
  - destruct (put_stat_above _ _ _ _ _ Hput Hqp Hne) as [Ha _].
    unfold is_dir in Ha. by rewrite Hq in Ha.
  - by rewrite (put_stat_disjoint p _ _ _ _ Hput H1 H2).
Qed.

Lemma files_kept_mkdir K p : respects (files_kept K) (mkdir p).
Proof.
  intros w w' r H.
  apply mkdir_inv in H as [(n' & Hnone & Hput & -> & _)|(e & -> & _)]; [|reflexivity].
  intros q c0 HKq Hq. simpl.
  destruct (path_cases p q) as [[r' ->]|[[Hqp Hne]|[H1 H2]]].
  - by rewrite (stat_below_None _ _ _ Hnone) in Hq.
  - destruct (put_stat_above _ _ _ _ _ Hput Hqp Hne) as [Ha _].
    unfold is_dir in Ha. by rewrite Hq in Ha.
  - by rewrite (put_stat_disjoint p _ _ _ _ Hput H1 H2).
Qed.

Lemma files_kept_log K e : respects (files_kept K) (log e).
Proof. intros w w' r H. inversion H; subst. by intros q c. Qed.

Lemma emits_update_fs P f : respects (emits P) (update_fs f).
Proof.
  intros w w' r H.
  apply update_fs_inv in H as [(n' & _ & -> & _)|(e & _ & -> & _)];
    by apply emits_same_trace.
Qed.

Lemma emits_log (P : event -> Prop) e : P e -> respects (emits P) (log e).
Proof.
  intros HP w w' r H. inversion H; subst. exists [e]. split; [done|]. by constructor.
Qed.





Lemma path_exists_inv p w w' b :
  path_exists p w = (w', Ok b) -> w' = w /\ b = bool_decide (is_Some (stat p (fs w))).
Proof. intros H. by inversion H. Qed.

Lemma makedirs_from_post done todo w w' :
  makedirs_from done todo w = (w', Ok tt) ->
  stat (done ++ todo) (fs w') = Some (Dir ∅).
Proof.
  revert done w. induction todo as [|x todo IH]; intros done w H; simpl in H.
  - rewrite app_nil_r.
    apply mkdir_inv in H as [(n' & _ & Hput & -> & _)|(e & _ & ?)]; [|done].
    simpl. by apply (put_stat_same done (Some (Dir ∅)) (fs w)).
  - apply bind_inv in H as [(w1 & [] & _ & H)|(e & _ & ?)]; [|done].
    apply IH in H. by rewrite <- app_assoc in H.
Qed.

Lemma path_exists_None p w : stat p (fs w) = None -> path_exists p w = (w, Ok false).
Proof.
  intros H. unfold path_exists. rewrite H.
  by rewrite bool_decide_eq_false_2 by (by intros [? ?]).
Qed.

(* ---------- composite actions respect a relation ---------- *)
Ltac respects_step :=
  lazymatch goal with
  | |- respects _ (ret _) => apply respects_ret; apply _
  | |- respects _ (raise _) => apply respects_raise; apply _
  | |- respects _ (lift _) => apply respects_lift; apply _
  | |- respects _ get_fs => apply respects_get_fs; apply _
  | |- respects _ (path_exists _) => apply respects_path_exists; apply _
  | |- respects _ (read_content _) => apply respects_read_content; apply _
  | |- respects _ (glob_dirs _ _ _) => apply respects_glob_dirs; apply _
  | |- respects _ (bind _ _) => apply respects_bind; [apply _| |intros ?]
  | |- respects _ (try_except _ _) => apply respects_try_except; [apply _| |intros ?]
  | |- respects _ (if ?b then _ else _) => destruct b
  | |- respects _ (match ?x with _ => _ end) => destruct x
  end.

Ltac respects_auto := repeat respects_step; eauto.

Section Composite.
Context {G : Type} (E : externals G).
Context (R : relation world) `{!PreOrder R}.
Context (Wr Mk Rm : path -> Prop) (Lg : event -> Prop).
Hypothesis R_write : forall p c, Wr p -> respects R (write_content p c).
Hypothesis R_mkdir : forall p, Mk p -> respects R (mkdir p).
Hypothesis R_rmtree : forall p, Rm p -> respects R (rmtree p).
Hypothesis R_log : forall e, Lg e -> respects R (log e).

Lemma respects_makedirs_from done todo :
  (forall k, k <= length todo -> Mk (done ++ take k todo)) ->
  respects R (makedirs_from done todo).
Proof.
  revert done. induction todo as [|x todo IH]; intros done HMk; simpl.
  - apply R_mkdir. specialize (HMk 0%nat). simpl in HMk.
    rewrite app_nil_r in HMk. auto.
  - assert (Mk done) as Hd.
    { specialize (HMk 0%nat). simpl in HMk. rewrite app_nil_r in HMk. apply HMk. lia. }
    respects_auto. apply IH. intros k Hk.
    rewrite <- app_assoc. simpl. apply (HMk (S k)). simpl. lia.
Qed.

Lemma respects_makedirs p :
  (forall q, q `prefix_of` p -> Mk q) -> respects R (makedirs p).
Proof.
  intros HMk. apply respects_makedirs_from. intros k _. simpl.
  apply HMk. exists (drop k p). by rewrite take_drop.
Qed.

Lemma respects_ensure_dir p :
  (forall q, q `prefix_of` p -> Mk q) -> respects R (ensure_dir p).
Proof.
  intros HMk. unfold ensure_dir. destruct p; respects_auto.
  by apply respects_makedirs.
Qed.

Lemma respects_copyfile src dst : Wr dst -> respects R (copyfile src dst).
Proof. intros. unfold copyfile. respects_auto. Qed.

Lemma respects_geofile_copy src destdir :
  Wr (destdir ++ [basename src]) -> respects R (geofile_copy src destdir).
Proof. intros. by apply respects_copyfile. Qed.

Lemma respects_geofile_read_file p : respects R (geofile_read_file E p).
Proof. unfold geofile_read_file. respects_auto. Qed.

Lemma respects_geofile_to_file df p : Wr p -> respects R (geofile_to_file E df p).
Proof. intros. unfold geofile_to_file. respects_auto. Qed.

Lemma respects_geofile_cmp p q : respects R (geofile_cmp p q).
Proof. unfold geofile_cmp. respects_auto. Qed.

Lemma respects_create_mask shapes image mask copy burn minimum frc :
  Wr mask -> (forall cp, copy = Some cp -> Wr cp) ->
  respects R (_create_mask E shapes image mask copy burn minimum frc).
Proof.
  intros Hm Hc. unfold _create_mask. respects_auto.
  apply respects_copyfile. auto.
Qed.

Lemma respects_process_label a ctx t image_dir mask_dir st label :
  (forall name, Wr (image_dir ++ [name])) ->
  (forall name, Wr (mask_dir ++ [name])) ->
  (forall e, progress_event t e -> Lg e) ->
  respects R (process_label E a ctx t image_dir mask_dir st label).
Proof.
  intros Hi Hm Hl. unfold process_label.
  respects_auto; try (apply R_log, Hl; done);
    try (apply respects_create_mask; [auto|done]).
Qed.

Lemma respects_process_labels a ctx t image_dir mask_dir st labels :
  (forall name, Wr (image_dir ++ [name])) ->
  (forall name, Wr (mask_dir ++ [name])) ->
  (forall e, progress_event t e -> Lg e) ->
  respects R (process_labels E a ctx t image_dir mask_dir st labels).
Proof.
  intros Hi Hm Hl. revert st.
  induction labels as [|l labels IH]; intros st; simpl; respects_auto.
  by apply respects_process_label.
Qed.

Lemma respects_split_body a ctx t image_dir mask_dir :
  (forall name, Wr (image_dir ++ [name])) ->
  (forall name, Wr (mask_dir ++ [name])) ->
  (forall e, progress_event t e -> Lg e) ->
  respects R (split_body E a ctx t image_dir mask_dir).
Proof.
  intros Hi Hm Hl. unfold split_body. respects_auto.
  by apply respects_process_labels.
Qed.

Lemma respects_prepare_split a ctx v t :
  let d := output_tmp_basedir a v in
  (forall q, q `prefix_of` d \/ d `prefix_of` q -> Mk q) ->
  (forall q, d `prefix_of` q -> length q = (length d + 3)%nat -> Wr q) ->
  (forall e, progress_event t e -> Lg e) ->
  Lg (EvSplitDone t) -> (forall ex, Lg (EvLoopError t ex)) ->
  respects R (prepare_split E a ctx v t).
Proof.
  intros d HMk HWr Hl Hdone Herr. unfold prepare_split. fold d.
  assert (forall r q, q `prefix_of` d ++ r -> Mk q) as HMk'.
  { intros r q Hq. apply HMk.
    destruct (prefix_weak_total q d (d ++ r)) as [?|?]; auto.
    by exists r. }
  assert (forall x y name, Wr (((d ++ [x]) ++ [y]) ++ [name])) as HWr'.
  { intros x y name. apply HWr.
    - exists [x; y; name]. by rewrite <- !app_assoc.
    - rewrite !length_app. simpl. lia. }
  respects_auto.
  - apply respects_ensure_dir. apply HMk'.
  - apply respects_ensure_dir. intros q. rewrite <- app_assoc. apply HMk'.
  - apply respects_ensure_dir. intros q. rewrite <- app_assoc. apply HMk'.
  - by apply respects_split_body.
Qed.

Lemma respects_prepare_splits a ctx v types :
  let d := output_tmp_basedir a v in
  (forall q, q `prefix_of` d \/ d `prefix_of` q -> Mk q) ->
  (forall q, d `prefix_of` q -> length q = (length d + 3)%nat -> Wr q) ->
  (forall t e, progress_event t e -> Lg e) ->
  (forall t, Lg (EvSplitDone t)) -> (forall t ex, Lg (EvLoopError t ex)) ->
  respects R (prepare_splits E a ctx v types).
Proof.
  intros d HMk HWr Hl Hdone Herr.
  induction types as [|t types IH]; simpl; respects_auto.
  apply respects_prepare_split; eauto.
Qed.

Lemma respects_copy_inputs a v :
  (forall name, Wr (output_tmp_basedir a v ++ [name])) ->
  respects R (copy_inputs a v).
Proof.
  intros HWr. unfold copy_inputs. respects_auto; by apply respects_geofile_copy.
Qed.

Lemma respects_read_inputs a : respects R (read_inputs E a).
Proof.
  unfold read_inputs. respects_auto; apply respects_geofile_read_file.
Qed.

Lemma respects_stage_inputs a v :
  (forall name, Wr (output_tmp_basedir a v ++ [name])) ->
  respects R (stage_inputs E a v).
Proof.
  intros HWr. unfold stage_inputs. respects_auto.
  - by apply respects_copy_inputs.
  - apply respects_read_inputs.
Qed.

Lemma respects_make_staging_dir a v :
  let d := output_tmp_basedir a v in
  Rm d -> (forall q, q `prefix_of` d -> Mk q) ->
  respects R (make_staging_dir a v).
Proof.
  intros d HRm HMk. unfold make_staging_dir. fold d. respects_auto.
  by apply respects_makedirs.
Qed.

Lemma respects_read_legacy p t : respects R (read_legacy E p t).
Proof.
  unfold read_legacy. respects_auto. apply respects_geofile_read_file.
Qed.

Lemma respects_convert loc data px py sw sh :
  Wr loc -> Wr data ->
  respects R (convert_traindata_v1tov2 E loc data px py sw sh).
Proof.
  intros Hl Hd. unfold convert_traindata_v1tov2.
  destruct (legacy_paths loc) as [[p1 p2] p3].
  respects_auto; try apply respects_read_legacy;
    by apply respects_geofile_to_file.
Qed.

Lemma respects_ensure_input_files a :
  Wr (labellocations_path a) -> Wr (labeldata_path a) ->
  respects R (ensure_input_files E a).
Proof.
  intros Hl Hd. unfold ensure_input_files. respects_auto.
  by apply respects_convert.
Qed.

Lemma respects_resolve_version a : respects R (resolve_version E a).
Proof.
  unfold resolve_version, legacy_version, inputs_unchanged, int_of.
  respects_auto; apply respects_geofile_cmp.
Qed.
End Composite.
(* ---------- strings ---------- *)
Lemma chars_app (s1 s2 : string) :
  list_ascii_of_string (s1 +:+ s2) = list_ascii_of_string s1 ++ list_ascii_of_string s2.
Proof. induction s1 as [|c s1 IH]; simpl; [done|]. by rewrite IH. Qed.

Lemma digit_not_space c : is_digit c = true -> is_space c = false.
Proof.
  unfold is_digit, is_space. intros H.
  apply andb_true_iff in H as [H1 H2].
  apply Nat.leb_le in H1, H2.
  apply orb_false_iff. split; apply andb_false_iff.
  - right. apply Nat.leb_gt. lia.
  - right. apply Nat.leb_gt. lia.
Qed.

Lemma string_of_uint_digits d :
  Forall (fun c => is_digit c = true) (list_ascii_of_string (NilEmpty.string_of_uint d)).
Proof. induction d; simpl; constructor; auto. Qed.

Lemma N_to_uint_nonnil n : N.to_uint n ≠ Decimal.Nil.
Proof.
  destruct n as [|p]; [done|]. simpl. apply DecimalPos.Unsigned.to_uint_nonnil.
Qed.

Lemma str_of_N_alt n : str_of_N n = NilEmpty.string_of_uint (N.to_uint n).
Proof.
  unfold str_of_N. pose proof (N_to_uint_nonnil n).
  by destruct (N.to_uint n).
Qed.

Lemma str_of_N_digits n :
  Forall (fun c => is_digit c = true) (list_ascii_of_string (str_of_N n)).
Proof. rewrite str_of_N_alt. apply string_of_uint_digits. Qed.

Lemma str_of_N_nonempty n : str_of_N n ≠ "".
Proof.
  rewrite str_of_N_alt. pose proof (N_to_uint_nonnil n).
  by destruct (N.to_uint n).
Qed.

(** The characters of a formatted version: digits, after a sign if the
    number is negative. *)
Lemma format_02d_digits v :
  (0 <= v)%Z ->
  Forall (fun c => is_digit c = true) (list_ascii_of_string (format_02d v)).
Proof.
  intros Hv. unfold format_02d.
  destruct (v <? 0)%Z eqn:Hneg; [apply Z.ltb_lt in Hneg; lia|].
  destruct (v <? 10)%Z.
  - simpl. constructor; [done|]. apply str_of_N_digits.
  - apply str_of_N_digits.
Qed.

Lemma format_02d_no_Y v : "Y"%char ∉ list_ascii_of_string (format_02d v).
Proof.
  assert (forall n, "Y"%char ∉ list_ascii_of_string (str_of_N n)) as Hn.
  { intros n Hin. pose proof (str_of_N_digits n) as Hd.
    rewrite Forall_forall in Hd. by apply Hd in Hin. }
  unfold format_02d.
  destruct (v <? 0)%Z; [|destruct (v <? 10)%Z]; simpl; auto.
  - intros [?|?]%elem_of_cons; [done|]. by eapply Hn.
  - intros [?|?]%elem_of_cons; [done|]. by eapply Hn.
Qed.

Lemma endswith_app s suffix : endswith (s +:+ suffix) suffix = true.
Proof.
  unfold endswith. apply bool_decide_eq_true. rewrite chars_app.
  by apply suffix_app_r.
Qed.

Lemma busy_name_busy v : not_busy (busy_name v) = false.
Proof. unfold not_busy, busy_name. by rewrite endswith_app. Qed.

Lemma format_02d_not_busy v : not_busy (format_02d v) = true.
Proof.
  unfold not_busy, endswith. apply negb_true_iff, bool_decide_eq_false.
  intros [k Hk]. apply (format_02d_no_Y v). rewrite Hk.
  apply elem_of_app. right. simpl. set_solver.
Qed.

Lemma busy_name_neq v v' : busy_name v ≠ format_02d v'.
Proof.
  intros H. pose proof (busy_name_busy v) as Hb. rewrite H in Hb.
  by rewrite format_02d_not_busy in Hb.
Qed.

Lemma format_02d_glob v : (0 <= v)%Z -> glob_digit_star (format_02d v) = true.
Proof.
  intros Hv. pose proof (format_02d_digits v Hv) as Hd.
  unfold format_02d in *.
  destruct (v <? 0)%Z eqn:Hneg; [apply Z.ltb_lt in Hneg; lia|].
  destruct (v <? 10)%Z; [done|].
  pose proof (str_of_N_nonempty (Z.to_N v)).
  destruct (str_of_N (Z.to_N v)) as [|c s]; [done|]. simpl in *.
  by inversion Hd.
Qed.

Lemma lstrip_chars_digits l :
  Forall (fun c => is_digit c = true) l -> lstrip_chars l = l.
Proof.
  destruct 1 as [|c l Hc Hl]; simpl; [done|]. by rewrite digit_not_space.
Qed.

Lemma strip_digits s :
  Forall (fun c => is_digit c = true) (list_ascii_of_string s) -> strip s = s.
Proof.
  intros H. unfold strip. rewrite (lstrip_chars_digits _ H).
  rewrite lstrip_chars_digits by (by apply Forall_rev).
  rewrite rev_involutive. apply string_of_list_ascii_of_string.
Qed.

Lemma drop_underscores_digits s prev :
  Forall (fun c => is_digit c = true) (list_ascii_of_string s) ->
  s ≠ "" \/ prev = true ->
  drop_underscores prev s = Some s.
Proof.
  revert prev. induction s as [|c s IH]; intros prev Hd Hne; simpl.
  - destruct Hne as [? | ->]; done.
  - simpl in Hd. inversion Hd as [|? ? Hc Hs]; subst.
    rewrite Hc. rewrite IH; auto.
Qed.

Lemma split_sign_digit c s :
  is_digit c = true -> split_sign (String c s) = (false, String c s).
Proof. destruct c as [[] [] [] [] [] [] [] []]; done. Qed.

Lemma py_int_digits s d :
  Forall (fun c => is_digit c = true) (list_ascii_of_string s) ->
  s ≠ "" ->
  NilEmpty.uint_of_string s = Some d ->
  py_int s = Some (Z.of_N (N.of_uint d)).
Proof.
  intros Hd Hne Hu. unfold py_int. rewrite (strip_digits _ Hd).
  destruct s as [|c s]; [done|].
  assert (is_digit c = true) as Hc by (simpl in Hd; by inversion Hd).
  rewrite (split_sign_digit _ _ Hc).
  rewrite drop_underscores_digits; auto.
  cbn -[NilEmpty.uint_of_string]. by rewrite Hu.
Qed.

Lemma py_int_format_02d v : (0 <= v)%Z -> py_int (format_02d v) = Some v.
Proof.
  intros Hv. pose proof (format_02d_digits v Hv) as Hd.
  unfold format_02d in *.
  destruct (v <? 0)%Z eqn:Hneg; [apply Z.ltb_lt in Hneg; lia|].
  destruct (v <? 10)%Z.
  - rewrite (py_int_digits _ (Decimal.D0 (N.to_uint (Z.to_N v)))); auto.
    + f_equal. rewrite <- Unsigned.of_uint_norm, unorm_D0, Unsigned.of_uint_norm.
      rewrite Unsigned.of_to. lia.
    + rewrite str_of_N_alt.
      change ("0" +:+ ?s) with (String "0" s). simpl. by rewrite NilEmpty.usu.
  - rewrite (py_int_digits _ (N.to_uint (Z.to_N v))); auto.
    + rewrite Unsigned.of_to. f_equal. lia.
    + apply str_of_N_nonempty.
    + rewrite str_of_N_alt. apply NilEmpty.usu.
Qed.

Lemma format_02d_inj v v' :
  (0 <= v)%Z -> (0 <= v')%Z -> format_02d v = format_02d v' -> v = v'.
Proof.
  intros Hv Hv' H. apply py_int_format_02d in Hv, Hv'. congruence.
Qed.

(** [int] of a name that starts with a digit is not negative. *)
Lemma py_int_nonneg s v :
  glob_digit_star s = true -> py_int s = Some v -> (0 <= v)%Z.
Proof.
  intros Hg. unfold py_int, strip.
  destruct s as [|c s]; [done|]. simpl in Hg.
  simpl list_ascii_of_string. simpl lstrip_chars.
  rewrite (digit_not_space _ Hg).
  destruct (rev (lstrip_chars (rev (c :: list_ascii_of_string s)))) as [|c' l'] eqn:Hl.
  - simpl. done.
  - assert (c' = c) as ->.
    { assert (exists k, lstrip_chars (rev (c :: list_ascii_of_string s)) = k ++ [c]) as [k Hk].
      { simpl. generalize (rev (list_ascii_of_string s)). intros l.
        induction l as [|x l IH]; simpl.
        - rewrite (digit_not_space _ Hg). by exists [].
        - destruct (is_space x); [done|]. by exists (x :: l). }
      rewrite Hk, rev_app_distr in Hl. simpl in Hl. by inversion Hl. }
    simpl string_of_list_ascii. rewrite (split_sign_digit _ _ Hg).
    destruct (drop_underscores _ _) as [digits|]; [|done].
    cbn -[NilEmpty.uint_of_string].
    destruct (NilEmpty.uint_of_string digits); [|done]. simpl.
    intros [= <-]. lia.
Qed.
(* ---------- the order of names ---------- *)
Lemma string_leb_trans s1 s2 s3 :
  String.leb s1 s2 = true -> String.leb s2 s3 = true -> String.leb s1 s3 = true.
Proof.
  unfold String.leb. revert s2 s3.
  induction s1 as [|a s1 IH]; intros [|b s2] [|c s3]; simpl; try done.
  unfold Ascii.compare.
  destruct (N.compare_spec (N_of_ascii a) (N_of_ascii b)) as [Hab|Hab|Hab];
    destruct (N.compare_spec (N_of_ascii b) (N_of_ascii c)) as [Hbc|Hbc|Hbc];
    destruct (N.compare_spec (N_of_ascii a) (N_of_ascii c)) as [Hac|Hac|Hac];
    try done; try lia.
  apply IH.
Qed.

Lemma string_leb_refl s : String.leb s s = true.
Proof. by destruct (String.leb_total s s). Qed.

Lemma str_max_cases a b : str_max a b = a \/ str_max a b = b.
Proof. unfold str_max. destruct (String.leb a b); auto. Qed.

Lemma str_max_ge_l a b : String.leb a (str_max a b) = true.
Proof.
  unfold str_max. destruct (String.leb a b) eqn:H; [done|apply string_leb_refl].
Qed.

Lemma str_max_ge_r a b : String.leb b (str_max a b) = true.
Proof.
  unfold str_max. destruct (String.leb a b) eqn:H; [apply string_leb_refl|].
  destruct (String.leb_total a b); congruence.
Qed.

Lemma greatest_None l : greatest l = None <-> l = [].
Proof. by destruct l. Qed.

Lemma greatest_upper l m :
  greatest l = Some m -> m ∈ l /\ forall x, x ∈ l -> String.leb x m = true.
Proof.
  destruct l as [|n ns]; [done|]. simpl. intros [= <-].
  induction ns as [|y ns [IH1 IH2]]; simpl.
  - split; [set_solver|]. intros x Hx. assert (x = n) as -> by set_solver. apply string_leb_refl.
  - split.
    + destruct (str_max_cases y (foldr str_max n ns)) as [->| ->]; [set_solver|].
      apply elem_of_cons in IH1 as [->|?]; set_solver.
    + intros x Hx.
      assert (x = y \/ x ∈ n :: ns) as [->|Hin] by set_solver.
      * apply str_max_ge_l.
      * eapply string_leb_trans; [by apply IH2|apply str_max_ge_r].
Qed.

Lemma greatest_unique l m :
  m ∈ l -> (forall x, x ∈ l -> String.leb x m = true) -> greatest l = Some m.
Proof.
  intros Hin Hup. destruct (greatest l) as [m'|] eqn:Hg.
  - apply greatest_upper in Hg as [Hin' Hup']. f_equal.
    apply String.leb_antisym; auto.
  - apply greatest_None in Hg. subst. by apply elem_of_nil in Hin.
Qed.

Lemma greatest_ext l l' :
  (forall x, x ∈ l <-> x ∈ l') -> greatest l = greatest l'.
Proof.
  intros H. destruct (greatest l) as [m|] eqn:Hg.
  - apply greatest_upper in Hg as [Hin Hup]. symmetry.
    apply greatest_unique; [by apply H|]. intros x Hx. by apply Hup, H.
  - apply greatest_None in Hg. subst. symmetry. apply greatest_None.
    destruct l' as [|x l']; [done|]. exfalso.
    apply (elem_of_nil x), H. set_solver.
Qed.

(** With one more name the greatest name is the new one or the old one. *)
Lemma greatest_insert l l' x :
  (forall y, y ∈ l' <-> y = x \/ y ∈ l) ->
  greatest l' = Some x \/ (greatest l' = greatest l /\ l ≠ []).
Proof.
  intros H. destruct (greatest l') as [m'|] eqn:Hg'.
  - pose proof (greatest_upper _ _ Hg') as [Hin' Hup'].
    apply H in Hin' as [->|Hin]; [by left|]. right. split.
    + symmetry. apply greatest_unique; [done|]. intros y Hy. apply Hup', H. auto.
    + intros ->. by apply elem_of_nil in Hin.
  - apply greatest_None in Hg'. subst. exfalso.
    apply (elem_of_nil x), H. auto.
Qed.

(* ---------- what glob finds ---------- *)
Lemma is_dir_entry d name n :
  is_dir (d ++ [name]) n = true <->
  exists es es', stat d n = Some (Dir es) /\ es !! name = Some (Dir es').
Proof.
  rewrite is_dir_true. rewrite stat_app. split.
  - intros [es' H]. destruct (stat d n) as [[c|es]|]; simpl in H; try done.
    exists es, es'. split; [done|]. by destruct (es !! name).
  - intros (es & es' & -> & H). exists es'. simpl. by rewrite H.
Qed.

Lemma elem_of_list_dirs d pat n name :
  name ∈ list_dirs d pat n <-> pat name = true /\ is_dir (d ++ [name]) n = true.
Proof.
  rewrite is_dir_entry. unfold list_dirs. split.
  - destruct (stat d n) as [[c|es]|]; try (by intros ?%elem_of_nil).
    intros [[k v] [Hin Hsome]]%list_elem_of_omap. simpl in Hsome.
    apply elem_of_map_to_list in Hin.
    destruct v as [c|es']; [done|].
    destruct (pat k) eqn:Hp; [|done]. inversion Hsome; subst. eauto.
  - intros (Hp & es & es' & -> & Hl). apply list_elem_of_omap.
    exists (name, Dir es'). split; [by apply elem_of_map_to_list|].
    simpl. by rewrite Hp.
Qed.

Lemma elem_of_version_names T n name :
  name ∈ version_names T n <->
  glob_digit_star name = true /\ not_busy name = true /\
  is_dir (T ++ [name]) n = true.
Proof.
  unfold version_names. rewrite list_elem_of_In, filter_In, <- list_elem_of_In.
  rewrite elem_of_list_dirs. tauto.
Qed.
(* ---------- instances of the relations ---------- *)
Lemma emits_write_content P p c : respects (emits P) (write_content p c).
Proof. apply emits_update_fs. Qed.
Lemma emits_mkdir P p : respects (emits P) (mkdir p).
Proof. apply emits_update_fs. Qed.
Lemma emits_rmtree P p : respects (emits P) (rmtree p).
Proof. apply emits_update_fs. Qed.

Lemma emits_nothing w w' : emits (fun _ => False) w w' -> trace w' = trace w.
Proof.
  intros (evs & -> & H). destruct evs as [|e evs]; [by rewrite app_nil_r|].
  by inversion H.
Qed.

Lemma new_events_app w w' evs : trace w' = trace w ++ evs -> new_events w w' = evs.
Proof. intros H. unfold new_events. rewrite H. by rewrite drop_app_length. Qed.

Section Phases.
Context {G : Type} (E : externals G).

(** The input check writes no directory and logs nothing. *)
Lemma ensure_input_files_trace a w w' r :
  ensure_input_files E a w = (w', r) -> trace w' = trace w.
Proof.
  intros H. apply emits_nothing.
  revert H. apply (respects_ensure_input_files E _ (fun _ => True)); auto.
  intros. apply emits_write_content.
Qed.

Lemma ensure_input_files_grows a : respects grows (ensure_input_files E a).
Proof.
  apply (respects_ensure_input_files E _ (fun _ => True)); auto.
  intros. apply grows_write_content.
Qed.

Lemma ensure_input_files_same_dirs a : respects same_dirs (ensure_input_files E a).
Proof.
  apply (respects_ensure_input_files E _ (fun _ => True)); auto.
  intros. apply same_dirs_write_content.
Qed.

(** The version resolver only reads. *)
Lemma resolve_version_pure a w w' r : resolve_version E a w = (w', r) -> w' = w.
Proof.
  intros H. symmetry. revert H. apply (respects_resolve_version E eq).
Qed.

Lemma make_staging_dir_frame a v :
  respects (frame (output_tmp_basedir a v)) (make_staging_dir a v).
Proof.
  apply (respects_make_staging_dir _
           (fun p => output_tmp_basedir a v `prefix_of` p \/
                     p `prefix_of` output_tmp_basedir a v)
           (fun p => output_tmp_basedir a v `prefix_of` p)).
  - intros p Hp. by apply frame_mkdir.
  - intros p Hp. by apply frame_rmtree.
  - done.
  - auto.
Qed.

Lemma make_staging_dir_trace a v w w' r :
  make_staging_dir a v w = (w', r) -> trace w' = trace w.
Proof.
  intros H. apply emits_nothing. revert H.
  apply (respects_make_staging_dir _ (fun _ => True) (fun _ => True)); auto.
  - intros. apply emits_mkdir.
  - intros. apply emits_rmtree.
Qed.

Lemma stage_inputs_frame a v :
  respects (frame (output_tmp_basedir a v)) (stage_inputs E a v).
Proof.
  apply (respects_stage_inputs E _
           (fun p => output_tmp_basedir a v `prefix_of` p)).
  - intros p c Hp. by apply frame_write_content.
  - intros name. by exists [name].
Qed.

Lemma stage_inputs_grows a v : respects grows (stage_inputs E a v).
Proof.
  apply (respects_stage_inputs E _ (fun _ => True)); auto.
  intros. apply grows_write_content.
Qed.

Lemma stage_inputs_trace a v w w' r :
  stage_inputs E a v w = (w', r) -> trace w' = trace w.
Proof.
  intros H. apply emits_nothing. revert H.
  apply (respects_stage_inputs E _ (fun _ => True)); auto.
  intros. apply emits_write_content.
Qed.

Lemma prepare_splits_frame a ctx v types :
  respects (frame (output_tmp_basedir a v)) (prepare_splits E a ctx v types).
Proof.
  apply (respects_prepare_splits E _
           (fun p => output_tmp_basedir a v `prefix_of` p)
           (fun p => output_tmp_basedir a v `prefix_of` p \/
                     p `prefix_of` output_tmp_basedir a v)
           (fun _ => True)); auto.
  - intros p c Hp. by apply frame_write_content.
  - intros p Hp. by apply frame_mkdir.
  - intros. apply frame_log.
  - intros q [?|?]; auto.
Qed.

Lemma prepare_splits_grows a ctx v types :
  respects grows (prepare_splits E a ctx v types).
Proof.
  apply (respects_prepare_splits E _ (fun _ => True) (fun _ => True)
           (fun _ => True)); auto.
  - intros. apply grows_write_content.
  - intros. apply grows_mkdir.
  - intros. apply grows_log.
Qed.

Lemma split_body_emits a ctx t image_dir mask_dir :
  respects (emits (progress_event t)) (split_body E a ctx t image_dir mask_dir).
Proof.
  apply (respects_split_body E _ (fun _ => True) (progress_event t)); auto.
  - intros. apply emits_write_content.
  - intros. by apply emits_log.
Qed.

Lemma ensure_dir_trace p w w' r : ensure_dir p w = (w', r) -> trace w' = trace w.
Proof.
  intros H. apply emits_nothing. revert H.
  apply (respects_ensure_dir _ (fun _ => True)); auto.
  intros. apply emits_mkdir.
Qed.

(** How one split ends: completed, failed in the loop, or failed while
    its directories were made. *)
Lemma prepare_split_outcome a ctx v t w w' r :
  prepare_split E a ctx v t w = (w', r) ->
  exists evs, trace w' = trace w ++ evs /\
    ((r = Ok tt /\ exists evs0, evs = evs0 ++ [EvSplitDone t] /\
        Forall (progress_event t) evs0) \/
     (exists ex evs0,
        r = Raise (Exception "Error preparing dataset!" (Some ex)) /\
        evs = evs0 ++ [EvLoopError t ex] /\ Forall (progress_event t) evs0) \/
     (exists e, r = Raise e /\ evs = [])).
Proof.
  unfold prepare_split. intros H.
  apply bind_inv in H as [(w1 & [] & H1 & H)|(e & H1 & ->)];
    [apply ensure_dir_trace in H1|
     apply ensure_dir_trace in H1; exists []; rewrite app_nil_r; eauto 10].
  apply bind_inv in H as [(w2 & [] & H2 & H)|(e & H2 & ->)];
    [apply ensure_dir_trace in H2|
     apply ensure_dir_trace in H2; exists []; rewrite app_nil_r;
     split; [congruence|eauto 10]].
  apply bind_inv in H as [(w3 & [] & H3 & H)|(e & H3 & ->)];
    [apply ensure_dir_trace in H3|
     apply ensure_dir_trace in H3; exists []; rewrite app_nil_r;
     split; [congruence|eauto 10]].
  assert (trace w3 = trace w) as Htr by congruence.
  unfold try_except in H.
  destruct (bind _ _ w3) as [w4 [[]|ex]] eqn:Hbody.
  - inversion H; subst.
    apply bind_inv in Hbody as [(w5 & st & Hb & Hlog)|(e & _ & ?)]; [|done].
    apply split_body_emits in Hb as (evs0 & Hevs & HF).
    inversion Hlog; subst. simpl.
    exists (evs0 ++ [EvSplitDone t]). rewrite Hevs, Htr, app_assoc.
    split; [done|]. left. eauto.
  - apply bind_inv in Hbody as [(w5 & st & Hb & Hlog)|(e & Hb & Heq)];
      [by inversion Hlog|].
    inversion Heq; subst e.
    apply split_body_emits in Hb as (evs0 & Hevs & HF).
    inversion H; subst. simpl.
    exists (evs0 ++ [EvLoopError t ex]). rewrite Hevs, Htr, app_assoc.
    split; [done|]. right. left. eauto 10.
Qed.
End Phases.
(* ---------- the shape of a run ---------- *)
Lemma rename_inv src dst w w' r :
  rename src dst w = (w', r) ->
  (exists e, w' = w /\ r = Raise e) \/
  (exists moved n1 n',
     stat src (fs w) = Some moved /\
     match stat dst (fs w), moved with
     | None, _ => True
     | Some (File _), File _ => True
     | Some d, Dir _ => is_empty_dir d = true
     | Some _, File _ => False
     end /\
     put src None (fs w) = Ok n1 /\ put dst (Some moved) n1 = Ok n' /\
     w' = mk_world n' (trace w) /\ r = Ok tt).
Proof.
  intros H. unfold rename in H.
  apply update_fs_inv in H as [(n' & Hf & -> & ->)|(e & Hf & -> & ->)]; [|eauto].
  right. destruct (stat src (fs w)) as [moved|] eqn:Hsrc; [|done].
  exists moved.
  destruct (stat dst (fs w)) as [[c|es]|] eqn:Hdst; destruct moved as [c'|es'];
    simpl in Hf; try done;
    try (destruct (put src None (fs w)) as [n1|] eqn:Hp; [|done];
         exists n1, n'; done).
  - destruct (bool_decide (es = ∅)) eqn:He; [|done].
    destruct (put src None (fs w)) as [n1|] eqn:Hp; [|done].
    exists n1, n'. simpl. by rewrite He.
Qed.

Section Shape.
Context {G : Type} (E : externals G).

Lemma promote_cases a v w w' r :
  promote a v w = (w', r) ->
  (exists e, w' = w /\ r = Raise e) \/
  (exists w1,
     rename (output_tmp_basedir a v) (output_basedir a v) w = (w1, Ok tt) /\
     trace w1 = trace w /\
     w' = mk_world (fs w1)
            (trace w ++ [EvRename (output_tmp_basedir a v) (output_basedir a v)]) /\
     r = Ok (output_basedir a v, v)).
Proof.
  unfold promote. intros H.
  apply bind_inv in H as [(w1 & [] & H1 & H)|(e & H1 & ->)].
  - right. exists w1. split; [done|].
    assert (trace w1 = trace w) as Htr.
    { apply rename_inv in H1 as [(e & _ & ?)|(m & n1 & n' & _ & _ & _ & _ & -> & _)];
        done. }
    split; [done|]. rewrite <- Htr. by inversion H.
  - left. exists e. split; [|done].
    apply rename_inv in H1 as [(e' & ? & _)|(m & n1 & n' & _ & _ & _ & _ & _ & ?)];
      done.
Qed.

Lemma build_version_cases a v w w' r :
  build_version E a v w = (w', r) ->
  (exists e, make_staging_dir a v w = (w', Raise e) /\ r = Raise e) \/
  (exists w2, make_staging_dir a v w = (w2, Ok tt) /\
     ((exists e, stage_inputs E a v w2 = (w', Raise e) /\ r = Raise e) \/
      (exists w3 ctx, stage_inputs E a v w2 = (w3, Ok ctx) /\
         ((exists e, prepare_splits E a ctx v traindata_types w3 = (w', Raise e) /\
                     r = Raise e) \/
          (exists w4, prepare_splits E a ctx v traindata_types w3 = (w4, Ok tt) /\
                      promote a v w4 = (w', r)))))).
Proof.
  unfold build_version. intros H.
  apply bind_inv in H as [(w2 & [] & H2 & H)|(e & H2 & ->)]; [|eauto].
  right. exists w2. split; [done|].
  apply bind_inv in H as [(w3 & ctx & H3 & H)|(e & H3 & ->)]; [|eauto].
  right. exists w3, ctx. split; [done|].
  apply bind_inv in H as [(w4 & [] & H4 & H)|(e & H4 & ->)]; eauto.
Qed.

Lemma prepare_cases a w w' r :
  prepare_traindatasets E a w = (w', r) ->
  (exists e, ensure_input_files E a w = (w', Raise e) /\ r = Raise e) \/
  (exists w0, ensure_input_files E a w = (w0, Ok tt) /\
     ((exists e, resolve_version E a w0 = (w0, Raise e) /\ w' = w0 /\ r = Raise e) \/
      (exists d v, resolve_version E a w0 = (w0, Ok (Reuse d v)) /\
                   w' = w0 /\ r = Ok (d, v)) \/
      (exists v, resolve_version E a w0 = (w0, Ok (Build v)) /\
                 build_version E a v w0 = (w', r)))).
Proof.
  unfold prepare_traindatasets. intros H.
  apply bind_inv in H as [(w0 & [] & H0 & H)|(e & H0 & ->)]; [|eauto].
  right. exists w0. split; [done|].
  apply bind_inv in H as [(w1 & res & H1 & H)|(e & H1 & ->)].
  - pose proof (resolve_version_pure _ _ _ _ _ H1) as ->.
    destruct res as [d v|v].
    + inversion H; subst. right. left. eauto.
    + right. right. eauto.
  - pose proof (resolve_version_pure _ _ _ _ _ H1) as ->. left. eauto.
Qed.

Lemma progress_event_kind t e :
  progress_event t e ->
  (forall src dst, e ≠ EvRename src dst) /\
  (forall t' ex, e ≠ EvLoopError t' ex) /\
  (forall t', e ≠ EvSplitDone t').
Proof. by destruct e. Qed.

(** How the loop over the splits ends. *)
Lemma prepare_splits_outcome a ctx v types w w' r :
  prepare_splits E a ctx v types w = (w', r) ->
  exists evs, trace w' = trace w ++ evs /\
    (forall src dst, EvRename src dst ∉ evs) /\
    (forall t ex, EvLoopError t ex ∈ evs ->
       r = Raise (Exception "Error preparing dataset!" (Some ex))) /\
    (r = Ok tt -> forall t, t ∈ types -> EvSplitDone t ∈ evs).
Proof.
  revert w. induction types as [|t types IH]; intros w H; simpl in H.
  - inversion H; subst. exists []. rewrite app_nil_r.
    split; [done|]. split; [intros ? ? ?%elem_of_nil; done|].
    split; [by intros ? ? ?%elem_of_nil|]. by intros _ ? ?%elem_of_nil.
  - apply bind_inv in H as [(w1 & [] & H1 & H)|(e & H1 & ->)].
    + apply prepare_split_outcome in H1
        as (evs1 & Htr1 & [(_ & evs0 & -> & HF)|[(ex & evs0 & ? & _)|(e & ? & _)]]);
        try done.
      apply IH in H as (evs2 & Htr2 & Hren & Herr & Hdone).
      assert (forall e, e ∈ evs0 -> progress_event t e) as Hprog
        by (by apply Forall_forall).
      exists ((evs0 ++ [EvSplitDone t]) ++ evs2).
      rewrite Htr2, Htr1, !app_assoc. split; [done|].
      split; [|split].
      * intros src dst Hin.
        apply elem_of_app in Hin as [Hin|Hin]; [|by eapply Hren].
        apply elem_of_app in Hin as [Hin|Hin]; [|set_solver].
        apply Hprog, progress_event_kind in Hin as (Hk & _). by eapply Hk.
      * intros t' ex Hin.
        apply elem_of_app in Hin as [Hin|Hin]; [|by eapply Herr].
        apply elem_of_app in Hin as [Hin|Hin]; [|set_solver].
        apply Hprog, progress_event_kind in Hin as (_ & Hk & _). by edestruct Hk.
      * intros Hr t' Ht'. apply elem_of_cons in Ht' as [->|Ht'].
        -- set_solver.
        -- apply elem_of_app. right. by apply Hdone.
    + apply prepare_split_outcome in H1
        as (evs1 & Htr1 & [(? & _)|[(ex & evs0 & -> & -> & HF)|(e' & _ & ->)]]);
        try done.
      * assert (forall e, e ∈ evs0 -> progress_event t e) as Hprog
          by (by apply Forall_forall).
        exists (evs0 ++ [EvLoopError t ex]). split; [done|].
        split; [|split; [|done]].
        -- intros src dst Hin.
           apply elem_of_app in Hin as [Hin|Hin]; [|set_solver].
           apply Hprog, progress_event_kind in Hin as (Hk & _). by eapply Hk.
        -- intros t' ex' Hin.
           apply elem_of_app in Hin as [Hin|Hin].
           ++ apply Hprog, progress_event_kind in Hin as (_ & Hk & _).
              by edestruct Hk.
           ++ apply list_elem_of_singleton in Hin. by inversion Hin.
      * exists []. split; [done|].
        split; [intros ? ? ?%elem_of_nil; done|].
        split; [by intros ? ? ?%elem_of_nil|done].
Qed.
End Shape.
(* ---------- the loop over the labels ---------- *)
Section Loop.
Context {G : Type} (E : externals G).

Lemma create_mask_trace shapes image mask copy burn minimum frc w w' r :
  _create_mask E shapes image mask copy burn minimum frc w = (w', r) ->
  trace w' = trace w.
Proof.
  intros H. apply emits_nothing. revert H.
  apply (respects_create_mask E _ (fun _ => True)); auto.
  intros. apply emits_write_content.
Qed.

Lemma write_content_trace p c w w' r :
  write_content p c w = (w', r) -> trace w' = trace w.
Proof. intros H. apply emits_nothing. revert H. apply emits_write_content. Qed.

(** What one round of the loop does, from the tile of the label. *)
Lemma process_label_spec a ctx t image_dir mask_dir st label w w' r :
  process_label E a ctx t image_dir mask_dir st label w = (w', r) ->
  match tile_box (bounds E (geometry label))
          (image_pixel_x_size a) (image_pixel_y_size a)
          (image_srs_width a) (image_srs_height a) with
  | Raise e => w' = w /\ r = Raise e
  | Ok b =>
      if intersects_any (created_images st) b then w' = w /\ r = Ok st
      else
        exists evs, trace w' = trace w ++ EvAccept t b :: evs /\
          ((evs = [] /\ exists e, r = Raise e) \/
           (exists req, gm_bbox req = b /\
              (evs = [EvFetch t req] \/
               exists i m, evs = [EvFetch t req; EvMask t i m]) /\
              ((exists e, r = Raise e) \/
               (exists servers,
                  r = Ok (mk_split_state (created_images st ++ [b]) servers)))))
  end.
Proof.
  unfold process_label. intros H.
  destruct (tile_box _ _ _ _ _) as [b|e] eqn:Htile.
  2:{ unfold bind, lift in H. by inversion H. }
  unfold bind at 1 in H. unfold lift at 1 in H.
  destruct (intersects_any (created_images st) b); [by inversion H|].
  apply bind_inv in H as [(w1 & [] & H1 & H)|(e & H1 & _)]; [|by inversion H1].
  inversion H1; subst w1; clear H1.
  set (w1 := {| fs := fs w; trace := trace w ++ [EvAccept t b] |}) in *.
  assert (forall evs, trace w1 ++ evs = trace w ++ EvAccept t b :: evs) as Hcons.
  { intros evs. simpl. by rewrite <- app_assoc. }
  apply bind_inv in H as [(w2 & [name cfg] & H2 & H)|(e & H2 & ->)].
  2:{ inversion H2; subst. exists []. split; [done|]. left. eauto. }
  inversion H2; subst w2; clear H2.
  apply bind_inv in H as [(w2 & server & H2 & H)|(e & H2 & ->)].
  2:{ exists []. split; [|left; eauto].
      destruct (wms_servers st !! name); [by inversion H2|].
      destruct (wms_connect E _ _); inversion H2; subst; done. }
  assert (w2 = w1) as ->.
  { destruct (wms_servers st !! name); [by inversion H2|].
    destruct (wms_connect E _ _); by inversion H2. }
  clear H2.
  apply bind_inv in H as [(w2 & [] & H2 & H)|(e & H2 & _)]; [|by inversion H2].
  inversion H2; subst w2; clear H2.
  match type of H with
  | context [EvFetch t ?r] => set (req := r) in *
  end.
  set (w2 := {| fs := fs w1; trace := trace w1 ++ [EvFetch t req] |}) in *.
  assert (trace w2 = trace w ++ EvAccept t b :: [EvFetch t req]) as Htr2.
  { simpl. by rewrite <- app_assoc. }
  apply bind_inv in H as [(w3 & files & Hg & H)|(e & Hg & _)]; [|by inversion Hg].
  inversion Hg; subst w3 files; clear Hg.
  apply bind_inv in H as [(w3 & fetched & Hf & H)|(e & Hf & ->)].
  2:{ inversion Hf; subst. exists [EvFetch t req]. split; [done|].
      right. exists req. eauto 10. }
  inversion Hf; subst w3; clear Hf.
  destruct fetched as [[image_name image]|].
  2:{ inversion H; subst. exists [EvFetch t req]. split; [done|].
      right. exists req. eauto 10. }
  apply bind_inv in H as [(w3 & [] & Hwr & H)|(e & Hwr & ->)].
  2:{ apply write_content_trace in Hwr. exists [EvFetch t req].
      split; [by rewrite Hwr|]. right. exists req. eauto 10. }
  apply write_content_trace in Hwr.
  apply bind_inv in H as [(w4 & [] & Hlg & H)|(e & Hlg & _)]; [|by inversion Hlg].
  inversion Hlg; subst w4; clear Hlg.
  exists [EvFetch t req; EvMask t (image_dir ++ [image_name]) (mask_dir ++ [image_name])].
  assert (forall w5 : world,
            trace w5 = trace w3 ++ [EvMask t (image_dir ++ [image_name])
                                      (mask_dir ++ [image_name])] ->
            trace w5 = trace w ++ [EvAccept t b; EvFetch t req;
                          EvMask t (image_dir ++ [image_name])
                            (mask_dir ++ [image_name])]) as Hfin.
  { intros w5 ->. rewrite Hwr. simpl. by rewrite <- !app_assoc. }
  apply bind_inv in H as [(w5 & o & Hcm & H)|(e & Hcm & ->)].
  - apply create_mask_trace in Hcm. inversion H; subst.
    split; [by apply Hfin|]. right. exists req. eauto 10.
  - apply create_mask_trace in Hcm.
    split; [by apply Hfin|]. right. exists req. eauto 10.
Qed.
End Loop.

(* ---------- a training directory with a plain name ---------- *)
Lemma glob_pattern_dirs_plain fn n done dir :
  plain_dir dir = true -> glob_pattern_dirs fn n done dir = [done ++ dir].
Proof.
  revert done. induction dir as [|c dir IH]; intros done Hp; simpl.
  - by rewrite app_nil_r.
  - simpl in Hp. apply andb_true_iff in Hp as [Hc Hp].
    apply negb_true_iff in Hc. rewrite Hc, IH by done.
    by rewrite <- app_assoc.
Qed.

Lemma string_app_assoc (a b c : string) : (a +:+ b) +:+ c = a +:+ b +:+ c.
Proof.
  induction a as [|x a IH]; [done|].
  change (String x ((a +:+ b) +:+ c) = String x (a +:+ b +:+ c)). by rewrite IH.
Qed.

(** The string of a path in a directory: a prefix that is empty or ends
    with the separator, and the name. *)
Lemma path_str_snoc (T : path) :
  exists p, (forall x, path_str (T ++ [x]) = p +:+ x) /\
            (p = "" \/ exists q, list_ascii_of_string p = q ++ ["/"%char]).
Proof.
  induction T as [|t T (p & Hp & Hsep)].
  - exists "". split; [done|by left].
  - exists (t +:+ "/" +:+ p). split.
    + intros x. destruct T as [|t' T].
      * specialize (Hp x). simpl in Hp. rewrite !string_app_assoc, <- Hp.
        done.
      * change (path_str ((t :: t' :: T) ++ [x]))
          with (t +:+ "/" +:+ path_str ((t' :: T) ++ [x])).
        rewrite Hp. by rewrite !string_app_assoc.
    + right. destruct Hsep as [->|[q Hq]].
      * exists (list_ascii_of_string t). by rewrite !chars_app.
      * exists (list_ascii_of_string t ++ "/"%char :: q).
        rewrite !chars_app, Hq. simpl. by rewrite <- app_assoc.
Qed.

Lemma suffix_after_separator (c : ascii) (s p x : list ascii) :
  c ∉ s -> s `suffix_of` (p ++ c :: x) -> s `suffix_of` x.
Proof.
  intros Hc [k Hk].
  apply app_eq_inv in Hk as [(k' & -> & Hs)|(k' & -> & Hx)].
  - exfalso. apply Hc. rewrite Hs. apply elem_of_app. right. apply elem_of_cons. by left.
  - destruct k' as [|y k'].
    + simpl in Hx. exfalso. apply Hc. rewrite <- Hx. apply elem_of_cons. by left.
    + injection Hx as _ ->. by exists k'.
Qed.

Lemma not_busy_in_dir (T : path) (x : string) :
  not_busy (path_str (T ++ [x])) = not_busy x.
Proof.
  destruct (path_str_snoc T) as (p & Hp & Hsep). rewrite Hp.
  destruct Hsep as [->|[q Hq]]; [done|].
  unfold not_busy, endswith. f_equal. apply bool_decide_ext.
  rewrite chars_app, Hq, <- app_assoc. simpl. split.
  - apply suffix_after_separator. intros Hin.
    repeat (apply elem_of_cons in Hin as [Hin|Hin]; [discriminate|]).
    by apply elem_of_nil in Hin.
  - intros [k ->]. exists (q ++ "/"%char :: k). by rewrite <- app_assoc.
Qed.

Lemma string_compare_app (p a b : string) :
  String.compare (p +:+ a) (p +:+ b) = String.compare a b.
Proof.
  induction p as [|c p IH]; [done|].
  change (String.compare (String c (p +:+ a)) (String c (p +:+ b))
          = String.compare a b).
  simpl. unfold Ascii.compare. by rewrite N.compare_refl.
Qed.

Lemma path_max_in_dir (T : path) (a b : string) :
  path_max (T ++ [a]) (T ++ [b]) = T ++ [str_max a b].
Proof.
  unfold path_max, str_max. destruct (path_str_snoc T) as (p & Hp & _).
  rewrite !Hp. unfold String.leb. rewrite string_compare_app.
  by destruct (String.compare a b).
Qed.

Lemma greatest_path_in_dir (T : path) (names : list string) :
  greatest_path (List.map (fun name => T ++ [name]) names)
  = (fun name => T ++ [name]) <$> greatest names.
Proof.
  destruct names as [|n ns]; [done|]. simpl. f_equal.
  induction ns as [|x ns IH]; simpl; [done|].
  by rewrite IH, path_max_in_dir.
Qed.

Lemma filter_not_busy_in_dir (T : path) (names : list string) :
  List.filter (fun d => not_busy (path_str d))
    (List.map (fun name => T ++ [name]) names)
  = List.map (fun name => T ++ [name]) (List.filter not_busy names).
Proof.
  induction names as [|x names IH]; simpl; [done|].
  rewrite not_busy_in_dir. destruct (not_busy x); simpl; by rewrite IH.
Qed.

Section PlainResolver.
Context {G : Type} (E : externals G).

Lemma glob_dirs_plain dir pattern w :
  plain_dir dir = true ->
  glob_dirs (fnmatch E) dir pattern w
  = (w, Ok (List.map (fun name => dir ++ [name]) (list_dirs dir pattern (fs w)))).
Proof.
  intros Hp. unfold glob_dirs. rewrite glob_pattern_dirs_plain by done.
  simpl. by rewrite app_nil_r.
Qed.

(** In a training directory with a plain name the resolver reads the
    names of the directory itself. *)
Lemma resolve_version_plain a w :
  plain_dir (training_dir a) = true ->
  resolve_version E a w =
    match greatest (version_names (training_dir a) (fs w)) with
    | None =>
        match greatest (List.filter not_busy
                          (list_dirs (training_dir a) glob_train_digit_star (fs w))) with
        | None => (w, Ok (Build 1))
        | Some name =>
            (do dataversion_mostrecent <- legacy_version name;
             ret (Build (dataversion_mostrecent + 1))) w
        end
    | Some m =>
        (do dataversion_mostrecent <- int_of m;
         do unchanged <- inputs_unchanged a (training_dir a ++ [m]);
         if unchanged : bool
         then ret (Reuse (training_dir a ++ [m]) dataversion_mostrecent)
         else ret (Build (dataversion_mostrecent + 1))) w
    end.
Proof.
  intros Hp. unfold resolve_version.
  rewrite (bind_ok _ _ _ _ _ (glob_dirs_plain _ _ w Hp)).
  rewrite filter_not_busy_in_dir, greatest_path_in_dir.
  fold (version_names (training_dir a) (fs w)).
  destruct (greatest (version_names (training_dir a) (fs w))) as [m|]; simpl.
  - unfold basename. by rewrite last_last.
  - rewrite (bind_ok _ _ _ _ _ (glob_dirs_plain _ _ w Hp)).
    rewrite filter_not_busy_in_dir, greatest_path_in_dir.
    destruct (greatest _) as [name|]; simpl; [|done].
    unfold basename. by rewrite last_last.
Qed.
End PlainResolver.
(* ---------- the version resolver ---------- *)
Lemma digit_not_underscore c : is_digit c = true -> Ascii.eqb c "_" = false.
Proof. destruct c as [[] [] [] [] [] [] [] []]; done. Qed.

Lemma split_on_cons sep s : exists piece pieces, split_on sep s = piece :: pieces.
Proof.
  induction s as [|c s (piece & pieces & IH)]; simpl; [eauto|].
  destruct (Ascii.eqb c sep); [eauto|]. rewrite IH. eauto.
Qed.

Lemma legacy_piece_digit name piece :
  glob_train_digit_star name = true ->
  split_on "_" name !! 1%nat = Some piece ->
  glob_digit_star piece = true.
Proof.
  unfold glob_train_digit_star. intros [Hp Hd]%andb_true_iff.
  destruct name as [|c1 [|c2 [|c3 [|c4 [|c5 [|c6 [|c7 rest]]]]]]]; try done.
  apply String.prefix_correct in Hp. simpl in Hp, Hd.
  inversion Hp; subst; clear Hp.
  simpl. rewrite (digit_not_underscore _ Hd).
  destruct (split_on_cons "_" rest) as (p & ps & ->). simpl.
  intros [= <-]. done.
Qed.


Lemma read_content_inv p w w' r :
  read_content p w = (w', r) ->
  w' = w /\ forall c, r = Ok c -> stat p (fs w) = Some (File c).
Proof.
  unfold read_content.
  destruct (stat p (fs w)) as [[c|es]|]; intros [= <- <-]; split; try done.
  by intros c' [= ->].
Qed.





Lemma int_of_inv name w w' r :
  int_of name w = (w', r) ->
  w' = w /\ forall v, r = Ok v -> py_int name = Some v.
Proof.
  unfold int_of. destruct (py_int name) as [v|]; intros [= <- <-]; split; try done.
  by intros v' [= ->].
Qed.

Section Resolver.
Context {G : Type} (E : externals G).


(** A new version is at least 1, and one more than the number of the
  greatest version name when there is one. *)
Lemma resolve_version_build a w w' v :
plain_dir (training_dir a) = true ->
resolve_version E a w = (w', Ok (Build v)) ->
(1 <= v)%Z /\
forall m, greatest (version_names (training_dir a) (fs w)) = Some m ->
  py_int m = Some (v - 1)%Z.
Proof.
intros Hplain. rewrite resolve_version_plain by done.
destruct (greatest (version_names (training_dir a) (fs w))) as [m|] eqn:Hg.
- intros H.
  apply bind_inv in H as [(w1 & v0 & H1 & H)|(e & _ & ?)]; [|done].
  apply int_of_inv in H1 as [-> Hv]. specialize (Hv _ eq_refl).
  apply bind_inv in H as [(w1 & unchanged & H1 & H)|(e & _ & ?)]; [|done].
  destruct unchanged; inversion H; subst.
  apply greatest_upper in Hg as [Hin _].
  apply elem_of_version_names in Hin as (Hglob & _).
  pose proof (py_int_nonneg _ _ Hglob Hv).
  split; [lia|]. intros m' [= <-]. rewrite Hv. f_equal. lia.
- intros H. split; [|done].
  match type of H with
  | context [greatest ?l] => destruct (greatest l) as [name|] eqn:Hl
  end; [|inversion H; lia].
  apply bind_inv in H as [(w2 & v0 & H2 & H)|(e & _ & ?)]; [|done].
  inversion H; subst.
  unfold legacy_version in H2.
  destruct (split_on "_" name !! 1%nat) as [piece|] eqn:Hp; [|done].
  apply int_of_inv in H2 as [_ Hv]. specialize (Hv _ eq_refl).
  apply greatest_upper in Hl as [Hin _].
  apply list_elem_of_In, filter_In in Hin as [Hin _].
  apply list_elem_of_In, elem_of_list_dirs in Hin as [Hglob _].
  pose proof (py_int_nonneg _ _ (legacy_piece_digit _ _ Hglob Hp) Hv). lia.
Qed.
End Resolver.
(* ---------- a build that succeeds ---------- *)
Lemma sibling_not_prefix (T : path) (x y : string) :
  x ≠ y -> ¬ (T ++ [x]) `prefix_of` (T ++ [y]).
Proof.
  intros Hne H%prefix_app_inv. apply prefix_cons_inv_1 in H. done.
Qed.

(** An existing path has directories above it. *)
Lemma stat_prefix_dir p x r n :
  is_Some (stat (p ++ x :: r) n) -> is_dir p n = true.
Proof.
  rewrite stat_app. intros [y Hy]. unfold is_dir.
  destruct (stat p n) as [[c|es]|]; simpl in Hy; done.
Qed.

Lemma rename_effect src dst w w1 :
  rename src dst w = (w1, Ok tt) ->
  ¬ src `prefix_of` dst -> ¬ dst `prefix_of` src ->
  trace w1 = trace w /\
  (forall r, stat (dst ++ r) (fs w1) = stat (src ++ r) (fs w)) /\
  stat src (fs w1) = None /\
  (forall q, disjoint_from src q -> disjoint_from dst q ->
     stat q (fs w1) = stat q (fs w)) /\
  (is_dir src (fs w) = true ->
   stat dst (fs w) = None \/ stat dst (fs w) = Some (Dir ∅)).
Proof.
  intros H Hsd Hds.
  apply rename_inv in H
    as [(e & _ & ?)|(moved & n1 & n' & Hsrc & Hallowed & Hp1 & Hp2 & -> & _)];
    [done|].
  simpl. split; [done|]. split; [|split; [|split]].
  - intros r. rewrite (put_stat_under dst r _ _ _ Hp2).
    by rewrite stat_app, Hsrc.
  - rewrite (put_stat_disjoint dst _ _ _ src Hp2) by done.
    by apply (put_stat_same src None (fs w)).
  - intros q [Hq1 Hq2] [Hq3 Hq4].
    rewrite (put_stat_disjoint dst _ _ _ q Hp2) by done.
    by apply (put_stat_disjoint src None).
  - intros [es Hes]%is_dir_true. rewrite Hsrc in Hes. inversion Hes; subst moved.
    destruct (stat dst (fs w)) as [[c|es']|]; [done| |by left].
    right. simpl in Hallowed. apply bool_decide_eq_true in Hallowed. by subst.
Qed.

Lemma ensure_dir_post p w w' :
  ensure_dir p w = (w', Ok tt) -> p ≠ [] -> is_Some (stat p (fs w')).
Proof.
  unfold ensure_dir. destruct p as [|x p]; [done|]. intros H _.
  apply bind_inv in H as [(w1 & present & H1 & H)|(e & _ & ?)]; [|done].
  apply path_exists_inv in H1 as [-> ->].
  destruct (bool_decide _) eqn:Hp.
  - inversion H; subst. by apply bool_decide_eq_true in Hp.
  - apply (makedirs_from_post []) in H. simpl in H. rewrite H. eauto.
Qed.

Lemma disjoint_from_sibling (T : path) (b name : string) (rest : path) :
  name ≠ b -> disjoint_from (T ++ [b]) (T ++ name :: rest).
Proof.
  intros Hne. split.
  - intros H%prefix_app_inv. apply prefix_cons_inv_1 in H. congruence.
  - intros H%prefix_app_inv. apply prefix_cons_inv_1 in H. congruence.
Qed.

Lemma not_busy_neq_busy_name name v : not_busy name = true -> name ≠ busy_name v.
Proof. intros H ->. by rewrite busy_name_busy in H. Qed.

Lemma make_staging_dir_post a v w w' :
  make_staging_dir a v w = (w', Ok tt) ->
  stat (output_tmp_basedir a v) (fs w') = Some (Dir ∅).
Proof.
  unfold make_staging_dir. intros H.
  apply bind_inv in H as [(w1 & stale & H1 & H)|(e & _ & ?)]; [|done].
  apply path_exists_inv in H1 as [-> ->].
  apply bind_inv in H as [(w2 & [] & H2 & H)|(e & _ & ?)]; [|done].
  apply bind_inv in H as [(w3 & present & H3 & H)|(e & _ & ?)]; [|done].
  apply path_exists_inv in H3 as [-> ->].
  assert (stat (output_tmp_basedir a v) (fs w2) = None) as Hnone.
  { destruct (bool_decide (is_Some (stat (output_tmp_basedir a v) (fs w)))) eqn:Hs.
    - apply rmtree_inv in H2 as [(n' & _ & Hput & -> & _)|(e & _ & ?)]; [|done].
      simpl. by apply (put_stat_same _ None (fs w)).
    - inversion H2; subst w2. apply bool_decide_eq_false in Hs.
      destruct (stat (output_tmp_basedir a v) (fs w)); [|done].
      destruct Hs. eauto. }
  rewrite Hnone in H.
  rewrite bool_decide_eq_false_2 in H by (by intros [? ?]).
  by apply (makedirs_from_post []) in H.
Qed.


Section Success.
Context {G : Type} (E : externals G).

Lemma prepare_splits_files_kept a ctx v types :
  respects (files_kept (fun q => length q = S (length (output_tmp_basedir a v))))
    (prepare_splits E a ctx v types).
Proof.
  apply (respects_prepare_splits E _
           (fun p => length p ≠ S (length (output_tmp_basedir a v)))
           (fun _ => True) (fun _ => True)); auto.
  - intros p c Hp. by apply files_kept_write_content.
  - intros. apply files_kept_mkdir.
  - intros. apply files_kept_log.
  - intros q _ Hq. lia.
Qed.

(** A split that completes has made its directory. *)
Lemma prepare_split_makes_dir a ctx v t w w' :
  prepare_split E a ctx v t w = (w', Ok tt) ->
  is_Some (stat (output_tmp_basedir a v ++ [t]) (fs w')).
Proof.
  unfold prepare_split. intros H.
  apply bind_inv in H as [(w0 & [] & H0 & H1)|(e & _ & ?)]; [|done].
  apply ensure_dir_post in H0; [|by destruct (output_tmp_basedir a v)].
  match type of H1 with
  | ?m w0 = _ => assert (respects grows m) as Hg
  end.
  { respects_auto.
    - apply (respects_ensure_dir _ (fun _ => True)); auto.
      intros. apply grows_mkdir.
    - apply (respects_ensure_dir _ (fun _ => True)); auto.
      intros. apply grows_mkdir.
    - apply (respects_split_body E _ (fun _ => True) (fun _ => True)); auto.
      + intros. apply grows_write_content.
      + intros. apply grows_log.
    - apply grows_log.
    - apply grows_log. }
  by apply (Hg _ _ _ H1).
Qed.

Lemma prepare_splits_make_train a ctx v w w' :
  prepare_splits E a ctx v traindata_types w = (w', Ok tt) ->
  is_Some (stat (output_tmp_basedir a v ++ ["train"]) (fs w')).
Proof.
  unfold traindata_types. simpl. intros H.
  apply bind_inv in H as [(w1 & [] & H1 & H)|(e & _ & ?)]; [|done].
  apply prepare_split_makes_dir in H1.
  match type of H with
  | ?m w1 = _ =>
      change m with (prepare_splits E a ctx v ["validation"; "test"]) in H
  end.
  by apply (prepare_splits_grows E _ _ _ _ _ _ _ H).
Qed.

Lemma read_inputs_pure a w w' r : read_inputs E a w = (w', r) -> w' = w.
Proof. intros H. symmetry. revert H. apply (respects_read_inputs E eq). Qed.

Lemma copy_inputs_post a v w w' :
  copy_inputs a v w = (w', Ok tt) ->
  exists c1 c2,
    stat (labellocations_path a) (fs w) = Some (File c1) /\
    stat (output_tmp_basedir a v ++ [basename (labeldata_path a)]) (fs w')
      = Some (File c2) /\
    stat (output_tmp_basedir a v ++ [basename (labellocations_path a)]) (fs w')
      = Some (File (if decide (basename (labellocations_path a) =
                               basename (labeldata_path a))
                    then c2 else c1)) /\
    (disjoint_from (output_tmp_basedir a v) (labeldata_path a) ->
     stat (labeldata_path a) (fs w) = Some (File c2)).
Proof.
  unfold copy_inputs, geofile_copy, copyfile. intros H.
  set (busy := output_tmp_basedir a v) in *.
  apply bind_inv in H as [(wa & [] & Ha & H)|(e & _ & ?)]; [|done].
  apply bind_inv in Ha as [(w0 & c1 & Hr1 & Hw1)|(e & _ & ?)]; [|done].
  apply read_content_inv in Hr1 as [-> Hc1]. specialize (Hc1 _ eq_refl).
  apply bind_inv in H as [(w0 & c2 & Hr2 & Hw2)|(e & _ & ?)]; [|done].
  apply read_content_inv in Hr2 as [-> Hc2]. specialize (Hc2 _ eq_refl).
  exists c1, c2. split; [done|].
  pose proof Hw1 as Hput1.
  apply write_content_inv in Hput1 as [(n1 & _ & Hput1 & -> & _)|(e & _ & ?)];
    [|done].
  pose proof Hw2 as Hput2.
  apply write_content_inv in Hput2 as [(n2 & _ & Hput2 & -> & _)|(e & _ & ?)];
    [|done].
  simpl in *. split; [|split].
  - by apply (put_stat_same _ _ n1).
  - destruct (decide _) as [Heq|Hne].
    + rewrite Heq. by apply (put_stat_same _ _ n1).
    + apply (files_kept_write_content
               (fun q => q = busy ++ [basename (labellocations_path a)])
               (busy ++ [basename (labeldata_path a)]) _
               (fun H => Hne (eq_sym (proj2 (app_inj_tail _ _ _ _ H)))) _ _ _ Hw2);
        [done|]. simpl.
      by apply (put_stat_same _ _ (fs w)).
  - intros Hdisj. rewrite <- Hc2. symmetry.
    assert (busy `prefix_of` busy ++ [basename (labellocations_path a)]) as Hp
      by (by exists [basename (labellocations_path a)]).
    apply (frame_write_content busy _ _ Hp _ _ _ Hw1 _ Hdisj).
Qed.

(** What a successful build leaves. *)
Lemma build_version_success a v w w' d v' :
  build_version E a v w = (w', Ok (d, v')) ->
  d = output_basedir a v /\ v' = v /\ promoted w w' = true /\
  is_dir (output_basedir a v) (fs w') = true /\
  is_Some (stat (output_basedir a v ++ ["train"]) (fs w')) /\
  stat (output_basedir a v ++ ["train"]) (fs w) = None /\
  stat (output_tmp_basedir a v) (fs w') = None /\
  (forall q, disjoint_from (output_tmp_basedir a v) q ->
             disjoint_from (output_basedir a v) q ->
             stat q (fs w') = stat q (fs w)) /\
  exists c1 c2,
    stat (output_basedir a v ++ [basename (labeldata_path a)]) (fs w')
      = Some (File c2) /\
    stat (output_basedir a v ++ [basename (labellocations_path a)]) (fs w')
      = Some (File (if decide (basename (labellocations_path a) =
                               basename (labeldata_path a))
                    then c2 else c1)) /\
    (disjoint_from (output_tmp_basedir a v) (labellocations_path a) ->
     stat (labellocations_path a) (fs w) = Some (File c1)) /\
    (disjoint_from (output_tmp_basedir a v) (labeldata_path a) ->
     stat (labeldata_path a) (fs w) = Some (File c2)).
Proof.
  intros H.
  apply build_version_cases in H
    as [(e & _ & ?)|(w2 & H2 & [(e & _ & ?)|(w3 & ctx & H3 & [(e & _ & ?)|(w4 & H4 & H5)])])];
    try done.
  apply promote_cases in H5 as [(e & _ & ?)|(w5 & Hren & _ & -> & Hr)]; [done|].
  inversion Hr; subst d v'. clear Hr.
  set (busy := output_tmp_basedir a v) in *.
  set (final := output_basedir a v) in *.
  assert (¬ busy `prefix_of` final /\ ¬ final `prefix_of` busy) as [Hbf Hfb].
  { split; apply sibling_not_prefix.
    - apply busy_name_neq.
    - intros Heq. by apply (busy_name_neq v v). }
  destruct (rename_effect _ _ _ _ Hren Hbf Hfb)
    as (Htr5 & Hmoved & Hgone & Hother & Hallowed).
  (* the staging phase *)
  unfold stage_inputs in H3.
  apply bind_inv in H3 as [(w2b & [] & Hcopy & Hread)|(e & _ & ?)]; [|done].
  pose proof (read_inputs_pure _ _ _ _ Hread) as ->.
  pose proof (make_staging_dir_frame a v _ _ _ H2) as Hf2.
  assert (frame busy w2 w2b) as Hf2b.
  { revert Hcopy.
    apply (respects_copy_inputs (frame busy) (fun p => busy `prefix_of` p)).
    - intros p c Hp. by apply frame_write_content.
    - intros name. by exists [name]. }
  pose proof (prepare_splits_frame E a ctx v _ _ _ _ H4) as Hf4.
  fold busy in Hf2, Hf4.
  assert (frame busy w w4) as Hframe.
  { etransitivity; [exact Hf2|]. etransitivity; [exact Hf2b|exact Hf4]. }
  assert (is_dir busy (fs w4) = true) as Hbusy4.
  { apply (prepare_splits_grows E a ctx v _ _ _ _ H4 busy).
    assert (grows w2 w2b) as Hg.
    { revert Hcopy.
      apply (respects_copy_inputs grows (fun _ => True)); auto.
      intros. apply grows_write_content. }
    apply (Hg busy). apply is_dir_true. exists ∅.
    apply (make_staging_dir_post a v w w2 H2). }
  assert (disjoint_from busy (final ++ ["train"])) as Hdt.
  { unfold busy, final, output_tmp_basedir, output_basedir.
    rewrite <- app_assoc. apply disjoint_from_sibling.
    intros Heq. by apply (busy_name_neq v v). }
  split; [done|]. split; [done|]. split.
  { unfold promoted.
    pose proof (make_staging_dir_trace _ _ _ _ _ H2) as Ht2.
    assert (trace w2b = trace w2) as Ht2b.
    { apply emits_nothing. revert Hcopy.
      apply (respects_copy_inputs (emits (fun _ => False)) (fun _ => True)); auto.
      intros. apply emits_write_content. }
    destruct (prepare_splits_outcome E _ _ _ _ _ _ _ H4) as (evs & Ht4 & _).
    rewrite (new_events_app w _ (evs ++ [EvRename busy final]))
      by (simpl; rewrite Ht4, Ht2b, Ht2; by rewrite app_assoc).
    rewrite existsb_app. simpl. by rewrite orb_true_r. }
  simpl. split.
  { unfold is_dir. rewrite <- (app_nil_r final), Hmoved, app_nil_r.
    exact Hbusy4. }
  split.
  { rewrite Hmoved. by apply (prepare_splits_make_train a ctx v w2b). }
  split.
  { rewrite <- (Hframe _ Hdt).
    destruct (Hallowed Hbusy4) as [Hn|Hn].
    - by apply stat_below_None.
    - rewrite stat_app, Hn. simpl. by rewrite lookup_empty. }
  split; [done|]. split.
  { intros q Hq1 Hq2. rewrite (Hother q Hq1 Hq2). by apply Hframe. }
  destruct (copy_inputs_post _ _ _ _ Hcopy) as (c1 & c2 & Hc1 & Hd & Hl & Hc2).
  fold busy in Hd, Hl, Hc2.
  pose proof (prepare_splits_files_kept a ctx v _ _ _ _ H4) as Hkept.
  fold busy in Hkept.
  exists c1, c2. rewrite !Hmoved. split; [|split; [|split]].
  - apply Hkept; [rewrite length_app; simpl; lia|done].
  - apply Hkept; [rewrite length_app; simpl; lia|done].
  - intros Hdisj. by rewrite <- (Hf2 _ Hdisj).
  - intros Hdisj. rewrite <- (Hf2 _ Hdisj). by apply Hc2.
Qed.
End Success.
(* ================================================================== *)
(** ** Calls and the version directories *)
(* ================================================================== *)

#[local] Instance versions_stable_preorder T : PreOrder (versions_stable T).
Proof.
  split.
  - by intros w name rest _.
  - intros w1 w2 w3 H12 H23 name rest Hnb.
    destruct (H12 name rest Hnb) as [Hd12 Hs12].
    destruct (H23 name rest Hnb) as [Hd23 Hs23].
    split; [congruence|auto].
Qed.

Lemma frame_versions_stable a v w w' :
  frame (output_tmp_basedir a v) w w' -> versions_stable (training_dir a) w w'.
Proof.
  intros Hf name rest Hnb.
  assert (disjoint_from (output_tmp_basedir a v) (training_dir a ++ name :: rest))
    as Hdisj by (apply disjoint_from_sibling; by apply not_busy_neq_busy_name).
  unfold is_dir. by rewrite (Hf _ Hdisj).
Qed.

Lemma versions_stable_names T w w' :
  versions_stable T w w' ->
  greatest (version_names T (fs w')) = greatest (version_names T (fs w)).
Proof.
  intros Hs. apply greatest_ext. intros x.
  rewrite !elem_of_version_names.
  split; intros (Hg & Hnb & Hd); (split; [done|split; [done|]]);
    destruct (Hs x [] Hnb) as [Heq _]; congruence.
Qed.

Lemma version_invariant_stable T w w' last :
  versions_stable T w w' ->
  version_invariant T (fs w) last -> version_invariant T (fs w') last.
Proof.
  intros Hs [Htrain (m & Hm & Hlast)]. split.
  - by apply (Hs (format_02d last) ["train"] (format_02d_not_busy last)).
  - exists m. by rewrite (versions_stable_names _ _ _ Hs).
Qed.

Section Calls.
Context {G : Type} (E : externals G).

Lemma ensure_input_files_stable a w w' r :
  ensure_input_files E a w = (w', r) -> versions_stable (training_dir a) w w'.
Proof.
  intros H name rest _. split.
  - by apply (ensure_input_files_same_dirs E a _ _ _ H).
  - by apply (ensure_input_files_grows E a _ _ _ H).
Qed.

Lemma build_version_failure a v w w' e :
  build_version E a v w = (w', Raise e) ->
  frame (output_tmp_basedir a v) w w'.
Proof.
  intros H.
  apply build_version_cases in H
    as [(e0 & H2 & _)|(w2 & H2 & [(e0 & H3 & _)|(w3 & ctx & H3 & [(e0 & H4 & _)|(w4 & H4 & H5)])])].
  - by apply (make_staging_dir_frame a v _ _ _ H2).
  - etransitivity; [by apply (make_staging_dir_frame a v _ _ _ H2)|].
    by apply (stage_inputs_frame E a v _ _ _ H3).
  - etransitivity; [by apply (make_staging_dir_frame a v _ _ _ H2)|].
    etransitivity; [by apply (stage_inputs_frame E a v _ _ _ H3)|].
    by apply (prepare_splits_frame E a ctx v _ _ _ _ H4).
  - apply promote_cases in H5 as [(e0 & -> & _)|(w5 & _ & _ & _ & ?)]; [|done].
    etransitivity; [by apply (make_staging_dir_frame a v _ _ _ H2)|].
    etransitivity; [by apply (stage_inputs_frame E a v _ _ _ H3)|].
    by apply (prepare_splits_frame E a ctx v _ _ _ _ H4).
Qed.

(** A call either builds nothing and leaves the version directories
    as they are, or builds the version the resolver chose. *)
Lemma prepare_outcome a w w' r :
  prepare_traindatasets E a w = (w', r) ->
  (built_versions w w' r = [] /\ versions_stable (training_dir a) w w') \/
  (exists w0 v,
     ensure_input_files E a w = (w0, Ok tt) /\
     resolve_version E a w0 = (w0, Ok (Build v)) /\
     build_version E a v w0 = (w', Ok (output_basedir a v, v)) /\
     r = Ok (output_basedir a v, v) /\
     built_versions w w' r = [v]).
Proof.
  intros H.
  apply prepare_cases in H
    as [(e & H0 & ->)|(w0 & H0 & [(e & _ & -> & ->)|[(d & v & _ & -> & ->)|(v & Hres & H)]])];
    pose proof (ensure_input_files_trace _ _ _ _ _ H0) as Htr0;
    pose proof (ensure_input_files_stable _ _ _ _ H0) as Hst0.
  1-2: by left.
  - left. split; [|done]. simpl. unfold promoted.
    rewrite (new_events_app w w0 []); [done|by rewrite app_nil_r].
  - destruct r as [[d v']|e].
    + right. exists w0, v.
      destruct (build_version_success E a v _ _ _ _ H)
        as (-> & -> & Hprom & _).
      repeat (split; [done|]). simpl.
      unfold promoted, new_events in *. by rewrite <- Htr0, Hprom.
    + left. split; [done|]. etransitivity; [exact Hst0|].
      by apply (frame_versions_stable a v), (build_version_failure a v _ _ e).
Qed.
End Calls.

Section Builds.
Context {G : Type} (E : externals G).

Lemma build_keeps_others a v w w' d v' name rest :
  build_version E a v w = (w', Ok (d, v')) ->
  not_busy name = true -> name ≠ format_02d v ->
  stat (training_dir a ++ name :: rest) (fs w')
    = stat (training_dir a ++ name :: rest) (fs w).
Proof.
  intros H Hnb Hne.
  destruct (build_version_success E a v _ _ _ _ H)
    as (_ & _ & _ & _ & _ & _ & _ & Hother & _).
  apply Hother; apply disjoint_from_sibling;
    [by apply not_busy_neq_busy_name|done].
Qed.

(** The version names after a build: the new one and those that were
    there. *)
Lemma build_version_names a v w w' d v' y :
  (0 <= v)%Z ->
  build_version E a v w = (w', Ok (d, v')) ->
  y ∈ version_names (training_dir a) (fs w') <->
  y = format_02d v \/ y ∈ version_names (training_dir a) (fs w).
Proof.
  intros Hv H.
  destruct (build_version_success E a v _ _ _ _ H)
    as (_ & _ & _ & Hdir & Htrain & _).
  rewrite !elem_of_version_names. split.
  - intros (Hglob & Hnb & Hd).
    destruct (decide (y = format_02d v)) as [->|Hy]; [by left|right].
    split; [done|split; [done|]]. revert Hd. unfold is_dir.
    by rewrite (build_keeps_others a v _ _ _ _ y [] H Hnb Hy).
  - intros [->|(Hglob & Hnb & Hd)].
    + split; [apply format_02d_glob; lia|].
      split; [apply format_02d_not_busy|done].
    + split; [done|split; [done|]].
      destruct (decide (y = format_02d v)) as [->|Hy]; [done|].
      revert Hd. unfold is_dir.
      by rewrite (build_keeps_others a v _ _ _ _ y [] H Hnb Hy).
Qed.

Lemma build_establishes_invariant a v w w' d v' :
  plain_dir (training_dir a) = true ->
  resolve_version E a w = (w, Ok (Build v)) ->
  build_version E a v w = (w', Ok (d, v')) ->
  version_invariant (training_dir a) (fs w') v.
Proof.
  intros Hplain Hres H.
  destruct (resolve_version_build E _ _ _ _ Hplain Hres) as [Hv Hprev].
  destruct (build_version_success E a v _ _ _ _ H)
    as (_ & _ & _ & Hdir & Htrain & _).
  split.
  { unfold output_basedir in Htrain. by rewrite <- app_assoc in Htrain. }
  destruct (greatest_insert (version_names (training_dir a) (fs w))
              (version_names (training_dir a) (fs w')) (format_02d v))
    as [Hg|[Hg Hne]].
  - intros y. apply (build_version_names a v w w' d v'); [lia|done].
  - exists (format_02d v). auto.
  - destruct (greatest (version_names (training_dir a) (fs w))) as [m|] eqn:Hm.
    + exists m. split; [done|right]. by apply Hprev.
    + by apply greatest_None in Hm.
Qed.

(** After a version, the next build that succeeds is the version after
    it: the resolver reads the greatest name, and where that is the
    name before the last version the staging directory cannot be
    renamed onto the last version. *)
Lemma build_follows_invariant a v w w' d v' last :
  plain_dir (training_dir a) = true ->
  (0 <= last)%Z ->
  version_invariant (training_dir a) (fs w) last ->
  resolve_version E a w = (w, Ok (Build v)) ->
  build_version E a v w = (w', Ok (d, v')) ->
  v = (last + 1)%Z.
Proof.
  intros Hplain Hlast [Htrain (m & Hm & Hcase)] Hres H.
  destruct (resolve_version_build E _ _ _ _ Hplain Hres) as [Hv Hprev].
  specialize (Hprev _ Hm).
  destruct Hcase as [->|Hpm].
  - rewrite py_int_format_02d in Hprev by done.
    injection Hprev as Hprev. lia.
  - assert (v = last) as -> by (rewrite Hpm in Hprev; injection Hprev; lia).
    destruct (build_version_success E a last _ _ _ _ H)
      as (_ & _ & _ & _ & _ & Hnone & _).
    unfold output_basedir in Hnone. rewrite <- app_assoc in Hnone.
    simpl in Hnone. rewrite Hnone in Htrain. by destruct Htrain.
Qed.
End Builds.




(* ================================================================== *)
(** ** C1: a build that fails in the loop is atomic *)
(* ================================================================== *)

Section Atomicity.
Context {G : Type} (E : externals G).

(** C1. When an exception is raised in the loop of a split (the trace
    has [EvLoopError]), [prepare_traindatasets] raises it wrapped in
    "Error preparing dataset!", never renames, leaves the staging
    directory on disk and leaves every entry of the training directory
    without the BUSY suffix as it was when the build started (after the
    check of the input files).  When the staging directory is renamed, it
    is the last thing done, after the three splits completed and with no
    exception in a loop. *)
Theorem build_failure_is_atomic a w w' r :
  prepare_traindatasets E a w = (w', r) ->
  (forall t ex, EvLoopError t ex ∈ new_events w w' ->
     r = Raise (Exception "Error preparing dataset!" (Some ex)) /\
     (forall src dst, EvRename src dst ∉ new_events w w') /\
     exists v,
       is_dir (output_tmp_basedir a v) (fs w') = true /\
       forall name rest, not_busy name = true ->
         stat (training_dir a ++ name :: rest) (fs w') =
         stat (training_dir a ++ name :: rest)
              (fs (ensure_input_files E a w).1)) /\
  (forall src dst, EvRename src dst ∈ new_events w w' ->
     exists evs v,
       new_events w w' = evs ++ [EvRename src dst] /\
       src = output_tmp_basedir a v /\ dst = output_basedir a v /\
       r = Ok (dst, v) /\
       (forall t, t ∈ traindata_types -> EvSplitDone t ∈ evs) /\
       (forall t ex, EvLoopError t ex ∉ evs)).
Proof.
  intros H.
  assert (forall w1, trace w1 = trace w -> new_events w w1 = []) as Hnone.
  { intros w1 Hw1. apply new_events_app. by rewrite app_nil_r. }
  apply prepare_cases in H
    as [(e & H0 & ->)|(w0 & H0 & [(e & _ & -> & ->)|[(d & v & _ & -> & ->)|(v & _ & H)]])];
    pose proof (ensure_input_files_trace _ _ _ _ _ H0) as Htr0.
  1-3: (specialize (Hnone _ Htr0); split; intros ? ? Hin;
        rewrite Hnone in Hin; by apply elem_of_nil in Hin).
  rewrite H0. simpl.
  apply build_version_cases in H
    as [(e & H2 & ->)|(w2 & H2 & [(e & H3 & ->)|(w3 & ctx & H3 & [(e & H4 & ->)|(w4 & H4 & H5)])])].
  - pose proof (make_staging_dir_trace _ _ _ _ _ H2) as Htr2.
    rewrite Hnone by congruence.
    split; intros ? ? Hin; by apply elem_of_nil in Hin.
  - pose proof (make_staging_dir_trace _ _ _ _ _ H2) as Htr2.
    pose proof (stage_inputs_trace _ _ _ _ _ _ H3) as Htr3.
    rewrite Hnone by congruence.
    split; intros ? ? Hin; by apply elem_of_nil in Hin.
  - pose proof (make_staging_dir_trace _ _ _ _ _ H2) as Htr2.
    pose proof (stage_inputs_trace _ _ _ _ _ _ H3) as Htr3.
    pose proof (prepare_splits_outcome _ _ _ _ _ _ _ _ H4)
      as (evs & Htr4 & Hren & Herr & _).
    rewrite (new_events_app w w' evs) by congruence.
    split.
    + intros t ex Hin.
      split; [apply Herr in Hin; by inversion Hin|]. split; [done|].
      exists v. split.
      * destruct (prepare_splits_grows E a ctx v _ _ _ _ H4
                    (output_tmp_basedir a v)) as [Hg4 _].
        destruct (stage_inputs_grows E a v _ _ _ H3
                    (output_tmp_basedir a v)) as [Hg3 _].
        apply Hg4, Hg3, is_dir_true. exists ∅. apply (make_staging_dir_post a v w0 w2 H2).
      * intros name rest Hnb.
        assert (disjoint_from (output_tmp_basedir a v)
                  (training_dir a ++ name :: rest)) as Hdisj
          by (apply disjoint_from_sibling; by apply not_busy_neq_busy_name).
        rewrite (prepare_splits_frame E a ctx v _ _ _ _ H4 _ Hdisj).
        rewrite (stage_inputs_frame E a v _ _ _ H3 _ Hdisj).
        by rewrite (make_staging_dir_frame a v _ _ _ H2 _ Hdisj).
    + intros src dst Hin. by apply Hren in Hin.
  - pose proof (make_staging_dir_trace _ _ _ _ _ H2) as Htr2.
    pose proof (stage_inputs_trace _ _ _ _ _ _ H3) as Htr3.
    pose proof (prepare_splits_outcome _ _ _ _ _ _ _ _ H4)
      as (evs & Htr4 & Hren & Herr & Hdone).
    assert (forall t ex, EvLoopError t ex ∉ evs) as Hnoerr.
    { intros t ex Hin. by apply Herr in Hin. }
    apply promote_cases in H5 as [(e & -> & ->)|(w5 & _ & _ & -> & ->)].
    + rewrite (new_events_app w w4 evs) by congruence.
      split; intros ? ? Hin; [by apply Hnoerr in Hin|by apply Hren in Hin].
    + rewrite (new_events_app w _ (evs ++ [EvRename (output_tmp_basedir a v)
                                             (output_basedir a v)]))
        by (simpl; rewrite Htr4, Htr3, Htr2, Htr0; by rewrite app_assoc).
      split.
      * intros t ex [Hin|Hin]%elem_of_app; [by apply Hnoerr in Hin|set_solver].
      * intros src dst [Hin|Hin]%elem_of_app; [by apply Hren in Hin|].
        apply list_elem_of_singleton in Hin. inversion Hin; subst.
        exists evs, v. simpl. auto 10.
Qed.
End Atomicity.

(** The server is down: the first request of the train split times out. *)
Lemma build_failure_is_atomic_witness :
  let w' := (prepare_traindatasets Demo.server_down Demo.args Demo.start).1 in
  let r := (prepare_traindatasets Demo.server_down Demo.args Demo.start).2 in
  EvLoopError "train" (ExternalError "timeout") ∈ new_events Demo.start w' /\
  r = Raise (Exception "Error preparing dataset!"
               (Some (ExternalError "timeout"))) /\
  is_dir ["training"; "01_BUSY"] (fs w') = true /\
  stat ["training"; "01"] (fs w') = None.
Proof.
  intros w' r.
  assert (EvLoopError "train" (ExternalError "timeout") ∈ new_events Demo.start w')
    as Hin by (vm_compute; repeat constructor).
  split; [exact Hin|].
  destruct (build_failure_is_atomic Demo.server_down Demo.args Demo.start w' r
              (surjective_pairing _)) as [Hfail _].
  destruct (Hfail _ _ Hin) as (Hr & _ & _).
  split; [exact Hr|]. split; vm_compute; reflexivity.
Defined.

(* ================================================================== *)
(** ** C2: the versions of successive builds *)
(* ================================================================== *)

Lemma history_invariant T w versions w' :
  plain_dir T = true ->
  history T w versions w' ->
  StronglySorted Z.lt versions /\
  Forall (fun v => 1 <= v)%Z versions /\
  (forall v, v ∈ versions -> is_dir (T ++ [format_02d v]) (fs w') = true) /\
  (forall l, last versions = Some l ->
     version_invariant T (fs w') l /\ Forall (fun v => v <= l)%Z versions).
Proof.
  assert (forall vs w1 w2,
            versions_stable T w1 w2 ->
            (forall v, v ∈ vs -> is_dir (T ++ [format_02d v]) (fs w1) = true) ->
            (forall l, last vs = Some l ->
               version_invariant T (fs w1) l /\ Forall (fun v => v <= l)%Z vs) ->
            (forall v, v ∈ vs -> is_dir (T ++ [format_02d v]) (fs w2) = true) /\
            (forall l, last vs = Some l ->
               version_invariant T (fs w2) l /\ Forall (fun v => v <= l)%Z vs))
    as Hstable.
  { intros vs w1 w2 Hs Hd Hi. split.
    - intros v Hv.
      destruct (Hs (format_02d v) [] (format_02d_not_busy v)) as [-> _]; auto.
    - intros l Hl. destruct (Hi l Hl) as [Hinv Hle].
      split; [by apply (version_invariant_stable T w1)|done]. }
  intros Hplain.
  induction 1 as [w|w vs w1 w2 _ IH Hs|G E a w vs w1 w2 r _ IH HT Hcall].
  - repeat split; try constructor; [intros v Hv; by apply elem_of_nil in Hv|done..].
  - destruct IH as (Hsorted & Hpos & Hd & Hi).
    destruct (Hstable _ _ _ Hs Hd Hi). auto.
  - destruct IH as (Hsorted & Hpos & Hd & Hi). subst T.
    apply prepare_outcome in Hcall
      as [[-> Hs]|(w0 & v & H0 & Hres & Hbuild & _ & ->)].
    { rewrite app_nil_r. destruct (Hstable _ _ _ Hs Hd Hi). auto. }
    destruct (Hstable _ _ _ (ensure_input_files_stable E a _ _ _ H0) Hd Hi)
      as [Hd0 Hi0].
    destruct (resolve_version_build E _ _ _ _ Hplain Hres) as [Hv _].
    destruct (build_version_success E a v _ _ _ _ Hbuild)
      as (_ & _ & _ & Hdir & _).
    assert (Forall (fun x => x < v)%Z vs) as Hlt.
    { destruct (last vs) as [l|] eqn:Hl.
      - destruct (Hi0 l eq_refl) as [Hinv Hle].
        assert (1 <= l)%Z as Hl1.
        { apply last_Some_elem_of in Hl.
          by apply (proj1 (Forall_forall _ _) Hpos). }
        rewrite (build_follows_invariant E a v _ _ _ _ l) by (done || lia).
        eapply Forall_impl; [exact Hle|]. intros x Hx. simpl in *. lia.
      - apply last_None in Hl as ->. constructor. }
    split; [|split; [|split]].
    + apply StronglySorted_app_2; [|done|by repeat constructor].
      intros x1 x2 Hx1 ->%list_elem_of_singleton.
      by apply (proj1 (Forall_forall _ _) Hlt).
    + apply Forall_app. split; [done|]. by repeat constructor.
    + intros x [Hx| ->%list_elem_of_singleton]%elem_of_app; [|done].
      assert (format_02d x ≠ format_02d v) as Hne.
      { intros Heq. apply format_02d_inj in Heq.
        - apply (proj1 (Forall_forall _ _) Hlt) in Hx. lia.
        - apply (proj1 (Forall_forall _ _) Hpos) in Hx. lia.
        - lia. }
      unfold is_dir.
      rewrite (build_keeps_others E a v _ _ _ _ (format_02d x) [] Hbuild
                 (format_02d_not_busy x) Hne).
      by apply Hd0.
    + intros l Hl. rewrite last_snoc in Hl. injection Hl as <-. split.
      * by apply (build_establishes_invariant E a v w0 _ _ _ Hplain Hres Hbuild).
      * apply Forall_app. split.
        -- eapply Forall_impl; [exact Hlt|]. intros x Hx. simpl in *. lia.
        -- by repeat constructor.
Qed.

(** On a training directory with a plain name the versions increase: in a
    history of calls, with between the calls nothing that changes the
    entries of the training directory without the BUSY suffix, the
    versions built are natural numbers from 1, each one greater than the
    ones built before it, so that none comes twice; each one has its own
    directory, and these directories are all there at the end. *)
Lemma plain_dir_versions_increase T w versions w' :
  plain_dir T = true ->
  history T w versions w' ->
  StronglySorted Z.lt versions /\
  Forall (fun v => 1 <= v)%Z versions /\
  NoDup versions /\
  (forall v, v ∈ versions -> is_dir (T ++ [format_02d v]) (fs w') = true) /\
  (forall v1 v2, v1 ∈ versions -> v2 ∈ versions ->
     T ++ [format_02d v1] = T ++ [format_02d v2] -> v1 = v2).
Proof.
  intros Hplain H.
  destruct (history_invariant _ _ _ _ Hplain H) as (Hsorted & Hpos & Hd & _).
  split; [done|]. split; [done|]. split; [|split; [done|]].
  - clear -Hsorted. induction Hsorted as [|x l _ IH Hx]; constructor; [|done].
    intros Hin. apply (proj1 (Forall_forall _ _) Hx) in Hin. lia.
  - intros v1 v2 H1 H2 Heq. apply app_inv_head in Heq. injection Heq as Heq.
    apply (proj1 (Forall_forall _ _) Hpos) in H1, H2.
    apply format_02d_inj in Heq; [done|lia..].
Qed.

(** Another directory [data1] leaves the directory [data[1]] as it is. *)
Lemma with_data1_stable entries w :
  versions_stable ["data[1]"] w (Demo.with_data1 entries w).
Proof.
  intros name rest _. unfold Demo.with_data1, is_dir, stat.
  destruct w as [[c|es] tr]; cbn [fs trace]; [done|].
  cbn [app lookup_path]. by rewrite lookup_insert_ne.
Qed.

(** C2, on a training directory named [data[1]] beside a directory
    [data1].  The resolver puts the name of the training directory in its
    glob pattern as it is, so it enumerates the directories of [data1]:
    with [data1/07] there the first build is version 8, made in
    [data[1]/08]; after [data1] has changed to hold [03] only, which
    leaves the training directory as it is, the second build is version
    4: two successful builds of one training directory whose versions
    decrease. *)
Theorem pattern_dir_versions_decrease :
  let w1 :=
    (prepare_traindatasets Demo.server_up Demo.args_pattern Demo.pattern_start).1 in
  let w1' := Demo.with_data1 {[ "03" := Dir ∅ ]} w1 in
  let w2 := (prepare_traindatasets Demo.server_up Demo.args_pattern w1').1 in
  prepare_traindatasets Demo.server_up Demo.args_pattern Demo.pattern_start
    = (w1, Ok (["data[1]"; "08"], 8%Z)) /\
  versions_stable ["data[1]"] w1 w1' /\
  prepare_traindatasets Demo.server_up Demo.args_pattern w1'
    = (w2, Ok (["data[1]"; "04"], 4%Z)) /\
  history ["data[1]"] Demo.pattern_start [8; 4]%Z w2 /\
  is_dir ["data[1]"; "08"] (fs w2) = true /\
  is_dir ["data[1]"; "04"] (fs w2) = true /\
  ~ StronglySorted Z.lt [8; 4]%Z.
Proof.
  intros w1 w1' w2.
  assert (prepare_traindatasets Demo.server_up Demo.args_pattern Demo.pattern_start
          = (w1, Ok (["data[1]"; "08"], 8%Z))) as H1.
  { rewrite (surjective_pairing (prepare_traindatasets _ _ _)).
    apply f_equal2; [reflexivity|vm_compute; reflexivity]. }
  assert (prepare_traindatasets Demo.server_up Demo.args_pattern w1'
          = (w2, Ok (["data[1]"; "04"], 4%Z))) as H2.
  { rewrite (surjective_pairing (prepare_traindatasets _ _ _)).
    apply f_equal2; [reflexivity|vm_compute; reflexivity]. }
  assert (versions_stable ["data[1]"] w1 w1') as Hstable
    by apply with_data1_stable.
  split; [exact H1|]. split; [exact Hstable|]. split; [exact H2|].
  split; [|split; [vm_compute; reflexivity|split; [vm_compute; reflexivity|]]].
  - pose proof (history_call ["data[1]"] Demo.server_up Demo.args_pattern
                  Demo.pattern_start _ w1' w2 _
                  (history_other _ _ _ w1 w1'
                     (history_call ["data[1]"] Demo.server_up Demo.args_pattern
                        Demo.pattern_start _ Demo.pattern_start w1 _
                        (history_start _ _) eq_refl H1)
                     Hstable)
                  eq_refl H2) as H.
    assert (([] ++ built_versions Demo.pattern_start w1
                     (Ok (["data[1]"; "08"], 8%Z)))
            ++ built_versions w1' w2 (Ok (["data[1]"; "04"], 4%Z))
            = [8; 4]%Z) as Hversions by (vm_compute; reflexivity).
    by rewrite Hversions in H.
  - intros Hsorted. apply StronglySorted_inv in Hsorted as [_ Hlt].
    apply Forall_inv in Hlt. lia.
Qed.

(* ================================================================== *)
(** ** C3: reuse of the most recent version *)
(* ================================================================== *)


Section Reuse.
Context {G : Type} (E : externals G).




End Reuse.



(* ================================================================== *)
(** ** C4: the next version *)
(* ================================================================== *)

(** C4, on a training directory that holds the versions 99 and 100.  The
    resolver takes the greatest name in the order of strings, "99", and
    resolves the new version to 100, which exists; the specification asks
    for one more than the greatest number, 101.  The build then fails when
    it renames its staging directory onto version 100. *)
Theorem next_version_after_100 :
  (forall name, name ∈ version_names ["training"] (fs Demo.crowded) <->
                name = "99" \/ name = "100") /\
  spec_next_version (version_names ["training"] (fs Demo.crowded)) = 101%Z /\
  resolve_version Demo.server_up Demo.args Demo.crowded
    = (Demo.crowded, Ok (Build 100)) /\
  is_dir ["training"; "100"] (fs Demo.crowded) = true /\
  (prepare_traindatasets Demo.server_up Demo.args Demo.crowded).2 =
    Raise (OSError "cannot rename to training/100").
Proof.
  split.
  { intros name.
    assert (version_names ["training"] (fs Demo.crowded) = ["99"; "100"]) as ->
      by (vm_compute; reflexivity).
    set_solver. }
  split; [vm_compute; reflexivity|].
  split; [vm_compute; reflexivity|].
  split; vm_compute; reflexivity.
Qed.

(* ================================================================== *)
(** ** C5: the tiles of a split do not overlap *)
(* ================================================================== *)

Lemma box_intersects_sym a b : box_intersects a b = box_intersects b a.
Proof.
  unfold box_intersects.
  destruct (fleb (bxmin a) (bxmax b)), (fleb (bxmin b) (bxmax a)),
    (fleb (bymin a) (bymax b)), (fleb (bymin b) (bymax a)); done.
Qed.

Lemma intersects_any_false created b :
  intersects_any created b = false ->
  forall a, a ∈ created -> box_intersects a b = false.
Proof.
  unfold intersects_any. intros H a Ha.
  destruct (box_intersects a b) eqn:Hab; [|done].
  assert (existsb (fun b0 => box_intersects b0 b) created = true) as Hex.
  { apply existsb_exists. exists a. split; [by apply list_elem_of_In|done]. }
  congruence.
Qed.

Lemma pairwise_disjoint_snoc boxes b :
  pairwise_disjoint boxes -> intersects_any boxes b = false ->
  pairwise_disjoint (boxes ++ [b]).
Proof.
  intros Hpd Hb i j x y Hij Hi Hj.
  pose proof (intersects_any_false _ _ Hb) as Hall.
  apply lookup_app_Some in Hi as [Hi|[Hli Hi]];
    apply lookup_app_Some in Hj as [Hj|[Hlj Hj]].
  - by eapply Hpd.
  - apply list_lookup_singleton_Some in Hj as [_ <-].
    apply Hall. by eapply list_elem_of_lookup_2.
  - apply list_lookup_singleton_Some in Hi as [_ <-].
    rewrite box_intersects_sym. apply Hall. by eapply list_elem_of_lookup_2.
  - apply list_lookup_singleton_Some in Hi as [Hi _].
    apply list_lookup_singleton_Some in Hj as [Hj _]. lia.
Qed.

Lemma accepted_boxes_app e1 e2 :
  accepted_boxes (e1 ++ e2) = accepted_boxes e1 ++ accepted_boxes e2.
Proof. apply omap_app. Qed.
Lemma fetched_boxes_app e1 e2 :
  fetched_boxes (e1 ++ e2) = fetched_boxes e1 ++ fetched_boxes e2.
Proof. apply omap_app. Qed.
Lemma masked_images_app e1 e2 :
  masked_images (e1 ++ e2) = masked_images e1 ++ masked_images e2.
Proof. apply omap_app. Qed.

Section NonOverlap.
Context {G : Type} (E : externals G).

Lemma process_labels_spec a ctx t image_dir mask_dir labels :
  forall st w w' r,
  process_labels E a ctx t image_dir mask_dir st labels w = (w', r) ->
  pairwise_disjoint (created_images st) ->
  exists evs, trace w' = trace w ++ evs /\
    pairwise_disjoint (created_images st ++ accepted_boxes evs) /\
    fetched_boxes evs `prefix_of` accepted_boxes evs /\
    length (masked_images evs) <= length (fetched_boxes evs) /\
    (forall st', r = Ok st' ->
       created_images st' = created_images st ++ accepted_boxes evs /\
       fetched_boxes evs = accepted_boxes evs /\
       exists tiles, Forall2 (tile_of E a) labels tiles /\
         created_images st' = select_non_overlapping (created_images st) tiles).
Proof.
  induction labels as [|label labels IH]; intros st w w' r H Hpd; simpl in H.
  - inversion H; subst. exists []. rewrite !app_nil_r. simpl.
    split; [done|]. split; [done|]. split; [done|]. split; [done|].
    intros st' [= <-]. split; [done|]. split; [done|].
    exists []. split; [constructor|done].
  - apply bind_inv in H as [(w1 & st1 & H1 & H)|(e & H1 & ->)].
    + apply process_label_spec in H1.
      destruct (tile_box _ _ _ _ _) as [b|e] eqn:Htile; [|by destruct H1].
      destruct (intersects_any (created_images st) b) eqn:Hint.
      * destruct H1 as [-> [= ->]].
        destruct (IH _ _ _ _ H Hpd) as (evs & Htr & Hd & Hf & Hm & Hok).
        exists evs. do 4 (split; [done|]).
        intros st' Hr. destruct (Hok _ Hr) as (Hc & Hfa & tiles & HF & Hsel).
        do 2 (split; [done|]). exists (b :: tiles). split; [by constructor|].
        simpl. unfold intersects_any in Hint. by rewrite Hint.
      * destruct H1 as (evs1 & Htr1 & [[_ [e ?]]|(req & Hreq & Hshape & [[e ?]|[servers [= ->]]])]);
          try done.
        simpl in H.
        assert (pairwise_disjoint (created_images st ++ [b])) as Hpd'
          by (by apply pairwise_disjoint_snoc).
        destruct (IH _ _ _ _ H Hpd') as (evs & Htr & Hd & Hf & Hm & Hok).
        simpl in *.
        assert (accepted_boxes evs1 = [] /\
                fetched_boxes evs1 = [b] /\
                length (masked_images evs1) <= 1) as (Ha1 & Hf1 & Hm1).
        { destruct Hshape as [->|(i & m & ->)]; simpl; rewrite Hreq; auto. }
        exists (EvAccept t b :: evs1 ++ evs).
        rewrite Htr, Htr1, <- app_assoc. simpl.
        rewrite accepted_boxes_app, fetched_boxes_app, masked_images_app, Ha1, Hf1.
        simpl.
        split; [done|]. split; [by rewrite <- app_assoc in Hd|].
        split; [by apply (prefix_app [b])|].
        split; [rewrite length_app; lia|].
        intros st' Hr. destruct (Hok _ Hr) as (Hc & Hfa & tiles & HF & Hsel).
        split; [by rewrite Hc, <- app_assoc|]. split; [by rewrite Hfa|].
        exists (b :: tiles). split; [by constructor|].
        simpl. unfold intersects_any in Hint. by rewrite Hint.
    + apply process_label_spec in H1.
      destruct (tile_box _ _ _ _ _) as [b|e'] eqn:Htile.
      2:{ destruct H1 as [-> _]. exists []. rewrite !app_nil_r. simpl.
          do 4 (split; [done|]). done. }
      destruct (intersects_any (created_images st) b) eqn:Hint; [by destruct H1|].
      destruct H1 as (evs1 & Htr1 & Hcases).
      assert (pairwise_disjoint (created_images st ++ [b])) as Hpd'
        by (by apply pairwise_disjoint_snoc).
      exists (EvAccept t b :: evs1). split; [done|].
      destruct Hcases as [[-> _]|(req & Hreq & Hshape & _)]; simpl.
      * split; [done|]. split; [apply prefix_nil|]. split; [done|]. done.
      * destruct Hshape as [->|(i & m & ->)]; simpl; rewrite Hreq;
          (split; [done|]); (split; [done|]); (split; [simpl; lia|done]).
Qed.

(** C5. In the loop of one split, started with no accepted box, the
    accepted boxes never intersect one another; every fetch is for an
    accepted box and every mask follows a fetch, so a candidate that
    intersects an accepted box causes neither; when the loop completes,
    the accepted boxes are exactly the fetched ones. *)
Theorem split_tiles_do_not_overlap a ctx t image_dir mask_dir w w' r :
  split_body E a ctx t image_dir mask_dir w = (w', r) ->
  pairwise_disjoint (accepted_boxes (new_events w w')) /\
  fetched_boxes (new_events w w') `prefix_of` accepted_boxes (new_events w w') /\
  length (masked_images (new_events w w')) <=
    length (fetched_boxes (new_events w w')) /\
  (forall st, r = Ok st ->
     created_images st = accepted_boxes (new_events w w') /\
     fetched_boxes (new_events w w') = accepted_boxes (new_events w w')).
Proof.
  unfold split_body. intros H.
  apply bind_inv in H as [(w1 & labels & H1 & H)|(e & H1 & ->)].
  - inversion H1; subst w1.
    apply process_labels_spec in H as (evs & Htr & Hd & Hf & Hm & Hok).
    2:{ intros i j x y _ Hi. simpl in Hi. by rewrite lookup_nil in Hi. }
    rewrite (new_events_app _ _ _ Htr). simpl in *.
    do 3 (split; [done|]). intros st Hr.
    destruct (Hok _ Hr) as (? & ? & _). done.
  - inversion H1; subst.
    rewrite (new_events_app w' w' []) by (by rewrite app_nil_r). simpl.
    split; [|done]. intros i j x y _ Hi. by rewrite lookup_nil in Hi.
Qed.
End NonOverlap.

(** Two train labels whose tiles intersect: the second one is skipped. *)
Lemma split_tiles_do_not_overlap_witness :
  let run := split_body Demo.server_up Demo.args Demo.context "train"
               ["image"] ["mask"] Demo.split_start in
  length (rows Demo.locations) = 3%nat /\
  length (accepted_boxes (new_events Demo.split_start run.1)) = 1%nat /\
  pairwise_disjoint (accepted_boxes (new_events Demo.split_start run.1)) /\
  fetched_boxes (new_events Demo.split_start run.1) =
    accepted_boxes (new_events Demo.split_start run.1).
Proof.
  intros run.
  destruct (split_tiles_do_not_overlap Demo.server_up Demo.args Demo.context
              "train" ["image"] ["mask"] Demo.split_start run.1 run.2
              (surjective_pairing _)) as (Hd & _ & _ & _).
  split; [reflexivity|]. split; [vm_compute; reflexivity|].
  split; [exact Hd|]. vm_compute. reflexivity.
Defined.

(* ================================================================== *)
(** ** C6: the mask and its image *)
(* ================================================================== *)

(** The profile of the mask keeps the grid of the image: its width, its
    height, its transform and its CRS. *)
Lemma mask_profile_alignment profile ext key :
  key ∈ ["width"; "height"; "transform"; "crs"] ->
  mask_profile profile ext !! key = profile !! key.
Proof.
  intros Hkey. unfold mask_profile.
  assert (key = "width" \/ key = "height" \/ key = "transform" \/ key = "crs")
    as Hcases by set_solver.
  destruct Hcases as [-> | [-> | [-> | ->]]];
    destruct (String.eqb ext ".tif");
    destruct (String.eqb ext ".jpg" || String.eqb ext ".jpeg");
    repeat ((rewrite lookup_delete_ne by done) || (rewrite lookup_insert_ne by done));
    done.
Qed.

(** The mask has one band of unsigned bytes and its nodata value is 0. *)
Lemma mask_profile_single_band profile ext :
  mask_profile profile ext !! "count" = Some (PInt 1) /\
  mask_profile profile ext !! "dtype" = Some (PStr "uint8") /\
  mask_profile profile ext !! "nodata" = Some (PInt 0).
Proof.
  unfold mask_profile.
  destruct (String.eqb ext ".tif");
    destruct (String.eqb ext ".jpg" || String.eqb ext ".jpeg");
    repeat split;
    repeat ((rewrite lookup_delete_ne by done) || (rewrite lookup_insert_ne by done));
    by rewrite lookup_insert_eq.
Qed.

Section Alignment.
Context {G : Type} (E : externals G).

(** The array [rasterize] returns, cell by cell. *)
Lemma rasterize_lookup shapes fill v t rows cols burned r c :
  rasterize E shapes fill v t (rows, cols) = Ok burned ->
  (r < rows)%nat -> (c < cols)%nat ->
  burned !! r ≫= (.!! c) =
    Some (if existsb (fun g => pixel_covered E g t r c) shapes then v else fill).
Proof.
  intros Hb Hr Hc. unfold rasterize in Hb.
  destruct shapes as [|g shapes]; [done|]. injection Hb as <-.
  cbn [fst snd].
  rewrite list_lookup_fmap, lookup_seq_lt by done. cbn [fmap option_fmap option_map mbind option_bind].
  by rewrite list_lookup_fmap, lookup_seq_lt.
Qed.

(** On a square image the array is on the grid of the image: every
    pixel holds the burn value when a geometry covers it and 0
    otherwise. *)
Lemma square_mask_is_burned shapes burn t size burned r c :
  rasterize E shapes 0 burn t (size, size) = Ok burned ->
  (r < size)%nat -> (c < size)%nat ->
  burned !! r ≫= (.!! c) =
    Some (if existsb (fun g => pixel_covered E g t r c) shapes then burn else 0%Z).
Proof. apply rasterize_lookup. Qed.
End Alignment.

(** C6, on an image of one column and two rows with a label on the pixel
    of the second row.  [_create_mask] asks [rasterize] for an array of
    [width] rows and [height] columns: the mask it writes has the width,
    height, transform and CRS of the image in its profile, but its band
    has one row of two columns, and the labeled pixel of row 1 is not in
    it. *)
Theorem tall_image_mask_is_not_aligned :
  exists w' mask,
    _create_mask Demo.server_up [Demo.second_row_pixel] ["image"; "tall.tif"]
      ["mask"; "tall.tif"] None 255 0 false Demo.mask_start =
      (w', Ok (Some true)) /\
    stat ["mask"; "tall.tif"] (fs w') = Some (File (Raster mask)) /\
    r_profile mask !! "width" = Some (PInt 1) /\
    r_profile mask !! "height" = Some (PInt 2) /\
    pixel_covered Demo.server_up Demo.second_row_pixel
      (ds_transform (Demo.image 1 2)) 1 0 = true /\
    r_bands mask = [[[0; 0]]]%Z /\
    (forall band, band ∈ r_bands mask -> band !! 1%nat ≫= (.!! 0%nat) = None).
Proof.
  eexists _, _. split; [vm_compute; reflexivity|].
  split; [vm_compute; reflexivity|].
  split; [vm_compute; reflexivity|].
  split; [vm_compute; reflexivity|].
  split; [vm_compute; reflexivity|].
  split; [vm_compute; reflexivity|].
  intros band Hband. cbn in Hband.
  apply list_elem_of_singleton in Hband. by subst band.
Qed.
(* ================================================================== *)
(** ** C7: the minimum fraction of labeled pixels *)
(* ================================================================== *)





Section Gate.
Context {G : Type} (E : externals G).



End Gate.

(* ================================================================== *)
(** ** C8: the tile of a label *)
(* ================================================================== *)






Section Tile.
Context {G : Type} (E : externals G).

End Tile.



(* ================================================================== *)
(** ** C9: missing input files *)
(* ================================================================== *)

Section MissingInput.
Context {G : Type} (E : externals G).


End MissingInput.


(* ================================================================== *)
(** ** C10: [max_samples] is not used *)
(* ================================================================== *)

Lemma bind_ext {A B} (m1 m2 : IO A) (k1 k2 : A -> IO B) w :
  m1 w = m2 w -> (forall x w', k1 x w' = k2 x w') ->
  bind m1 k1 w = bind m2 k2 w.
Proof.
  intros Hm Hk. unfold bind. rewrite Hm. destruct (m2 w) as [w' [x|e]]; auto.
Qed.

Lemma try_except_ext {A} (m1 m2 : IO A) (h1 h2 : exn -> IO A) w :
  m1 w = m2 w -> (forall e w', h1 e w' = h2 e w') ->
  try_except m1 h1 w = try_except m2 h2 w.
Proof.
  intros Hm Hh. unfold try_except. rewrite Hm. destruct (m2 w) as [w' [x|e]]; auto.
Qed.

Section MaxSamples.
Context {G : Type} (E : externals G).

Lemma process_labels_max_samples a m ctx t image_dir mask_dir labels :
  forall st w,
  process_labels E (with_max_samples m a) ctx t image_dir mask_dir st labels w =
  process_labels E a ctx t image_dir mask_dir st labels w.
Proof.
  induction labels as [|label labels IH]; intros st w; simpl; [done|].
  apply bind_ext; [exact eq_refl|]. intros st' w'. apply IH.
Qed.

Lemma split_body_max_samples a m ctx t image_dir mask_dir w :
  split_body E (with_max_samples m a) ctx t image_dir mask_dir w =
  split_body E a ctx t image_dir mask_dir w.
Proof.
  unfold split_body. apply bind_ext; [done|].
  intros labels w'. apply process_labels_max_samples.
Qed.

Lemma prepare_splits_max_samples a m ctx v types :
  forall w,
  prepare_splits E (with_max_samples m a) ctx v types w =
  prepare_splits E a ctx v types w.
Proof.
  induction types as [|t types IH]; intros w; simpl; [done|].
  apply bind_ext; [|intros; apply IH].
  unfold prepare_split.
  apply bind_ext; [exact eq_refl|]. intros _ w1.
  apply bind_ext; [exact eq_refl|]. intros _ w2.
  apply bind_ext; [exact eq_refl|]. intros _ w3.
  apply try_except_ext; [|done].
  apply bind_ext; [|done]. apply split_body_max_samples.
Qed.

(** C10. Whatever [max_samples] is, the builder runs the same; and
    when the loop of a split completes, the boxes accepted are the
    non-overlapping tiles of all the labels of the split, each of them
    fetched, however many they are. *)
Theorem max_samples_has_no_effect a m w :
  prepare_traindatasets E (with_max_samples m a) w =
    prepare_traindatasets E a w /\
  forall ctx t image_dir mask_dir w' st,
    split_body E (with_max_samples m a) ctx t image_dir mask_dir w = (w', Ok st) ->
    exists labels tiles,
      labels_of_split ctx t = Ok labels /\
      Forall2 (tile_of E a) labels tiles /\
      accepted_boxes (new_events w w') = select_non_overlapping [] tiles /\
      fetched_boxes (new_events w w') = select_non_overlapping [] tiles /\
      length (fetched_boxes (new_events w w')) =
        length (select_non_overlapping [] tiles).
Proof.
  split.
  { unfold prepare_traindatasets.
    apply bind_ext; [exact eq_refl|]. intros _ w0.
    apply bind_ext; [exact eq_refl|]. intros [d v|v] w1; [done|].
    unfold build_version.
    apply bind_ext; [exact eq_refl|]. intros _ w2.
    apply bind_ext; [exact eq_refl|]. intros ctx w3.
    apply bind_ext; [|done]. apply prepare_splits_max_samples. }
  intros ctx t image_dir mask_dir w' st H.
  rewrite split_body_max_samples in H.
  unfold split_body in H.
  apply bind_inv in H as [(w1 & labels & H1 & H)|(e & _ & ?)]; [|done].
  inversion H1 as [[Hw Hl]]; subst w1.
  apply process_labels_spec in H as (evs & Htr & _ & _ & _ & Hok).
  2:{ intros i j x y _ Hi. simpl in Hi. by rewrite lookup_nil in Hi. }
  destruct (Hok st eq_refl) as (Hc & Hf & tiles & HF & Hsel). simpl in *.
  rewrite (new_events_app _ _ _ Htr).
  exists labels, tiles. split; [done|]. split; [done|].
  rewrite Hf, <- Hc, Hsel. done.
Qed.
End MaxSamples.

(** With [max_samples = 0] the train split still fetches its tile. *)
Lemma max_samples_has_no_effect_witness :
  let a := with_max_samples 0 Demo.args in
  let run := split_body Demo.server_up a Demo.context "train"
               ["image"] ["mask"] Demo.split_start in
  max_samples a = 0%Z /\
  length (fetched_boxes (new_events Demo.split_start run.1)) = 1%nat /\
  exists tiles,
    fetched_boxes (new_events Demo.split_start run.1) =
      select_non_overlapping [] tiles.
Proof.
  intros a run. split; [reflexivity|]. split; [vm_compute; reflexivity|].
  destruct (max_samples_has_no_effect Demo.server_up Demo.args 0 Demo.split_start)
    as [_ Hsplit].
  assert (exists st, run = (run.1, Ok st)) as [st Hrun].
  { vm_compute. eexists. reflexivity. }
  destruct (Hsplit Demo.context "train" ["image"] ["mask"] run.1 st Hrun)
    as (labels & tiles & _ & _ & _ & Hf & _).
  exists tiles. exact Hf.
Defined.
